(** * Macro calculator (app.py): the calculation pipeline and its properties

    The script computes a nutrition plan from the sidebar's widget values:
    units -> lean mass -> BMR -> TDEE -> preset and style -> target calories
    -> macro split -> per-meal values -> export payload.

    Python's [float] is IEEE-754 binary64 and so is Rocq's primitive [float]:
    the pipeline is written over an interface of arithmetic operations
    ([Arith]) and run on [binary64], primitive floats. What holds for the
    shape of the computation is proved for every arithmetic; what depends on
    the numbers is proved on [binary64], with the rounding of each operation
    taken from [SpecFloat].
    Python's [int] is [Z], [str] is [string], [None] is [option], a raised
    exception is the [Raise] case of [result]. *)

From Stdlib Require Import ZArith QArith Qpower Qround Qabs Lqa Lia Bool List String Ascii Floats.
Import ListNotations.

Set Warnings "-inexact-float".

(** ** Exceptions *)

Inductive exn : Set :=
| ZeroDivisionError
| ValueError
| OverflowError
| KeyError.

Inductive result (A : Type) : Type :=
| Ok (a : A)
| Raise (e : exn).

Arguments Ok {A} a.
Arguments Raise {A} e.

Definition bind {A B : Type} (r : result A) (k : A -> result B) : result B :=
  match r with
  | Ok a => k a
  | Raise e => Raise e
  end.

Notation "x <- c ;; k" := (bind c (fun x => k))
  (at level 61, c at next level, right associativity).

Definition raised {A : Type} (r : result A) : option exn :=
  match r with
  | Ok _ => None
  | Raise e => Some e
  end.

Definition is_zero_division {A : Type} (r : result A) : bool :=
  match r with
  | Raise ZeroDivisionError => true
  | _ => false
  end.

(** ** The arithmetic of Python's float

    [flt a b] is [a < b], [fle a b] is [a <= b], [feq a b] is [a == b];
    [of_int] is the conversion of an [int] operand; [pyround] is the built-in
    [round] with one argument (to the nearest integer, ties to even; it
    raises on NaN and on an infinity). *)

Class Arith (F : Type) : Type := {
  fadd : F -> F -> F;
  fsub : F -> F -> F;
  fmul : F -> F -> F;
  fdiv : F -> F -> F;
  flt : F -> F -> bool;
  fle : F -> F -> bool;
  feq : F -> F -> bool;
  fisnan : F -> bool;
  of_int : Z -> F;
  pyround : F -> result Z
}.

(** *** binary64 *)

(** [float(z)]: the double nearest to [z]. Up to 53 bits, which covers every
    int the script converts for values within the widgets' bounds, it is
    exact ([of_int_exact]); beyond the largest double, where Python raises
    OverflowError, it is an infinity. *)
Definition Z2float (z : Z) : float :=
  SF2Prim (binary_normalize prec emax z 0 false).

(** The integer nearest to [m * 2^e] for [0 <= m], ties to even. *)
Definition nearest_even (m e : Z) : Z :=
  if (0 <=? e)%Z then (m * 2 ^ e)%Z
  else
    let d := (2 ^ (- e))%Z in
    let q := (m / d)%Z in
    let r := (m mod d)%Z in
    match (2 * r ?= d)%Z with
    | Lt => q
    | Gt => (q + 1)%Z
    | Eq => if Z.even q then q else (q + 1)%Z
    end.

Definition float_round (x : float) : result Z :=
  match Prim2SF x with
  | S754_zero _ => Ok 0%Z
  | S754_infinity _ => Raise OverflowError
  | S754_nan => Raise ValueError
  | S754_finite s m e =>
      let n := nearest_even (Zpos m) e in
      Ok (if s then (- n)%Z else n)
  end.

#[export] Instance binary64 : Arith float := {
  fadd := PrimFloat.add;
  fsub := PrimFloat.sub;
  fmul := PrimFloat.mul;
  fdiv := PrimFloat.div;
  flt := PrimFloat.ltb;
  fle := PrimFloat.leb;
  feq := PrimFloat.eqb;
  fisnan := PrimFloat.is_nan;
  of_int := Z2float;
  pyround := float_round
}.

(** ** Python operators over an arithmetic *)

Section Operators.
Context {F : Type} {A : Arith F}.

(** A decimal literal [n / 10^k] (both below 2^53 wherever it is used, so on
    binary64 the quotient is the double nearest to the literal). *)
Definition dec (n : Z) (k : nat) : F :=
  fdiv (of_int n) (of_int (10 ^ Z.of_nat k)).

(** [max(a, b)] and [min(a, b)]: the second argument wins only when it
    compares strictly greater (smaller) than the first. *)
Definition pymax (a b : F) : F := if flt a b then b else a.
Definition pymin (a b : F) : F := if flt b a then b else a.

(** [a / b] with a float divisor that is a variable. *)
Definition pydiv (a b : F) : result F :=
  if feq b (of_int 0) then Raise ZeroDivisionError else Ok (fdiv a b).

(** [a / z] with an int divisor: it raises exactly when [z] is 0. *)
Definition pydiv_int (a : F) (z : Z) : result F :=
  if (z =? 0)%Z then Raise ZeroDivisionError else Ok (fdiv a (of_int z)).

(** A value that is an [int] on one branch and a [float] on the other. *)
Inductive num : Type :=
| Int (z : Z)
| Float (x : F).

Definition to_float (n : num) : F :=
  match n with
  | Int z => of_int z
  | Float x => x
  end.

(** *** Helper math *)

Definition round_n (n : F) (d : nat) : result F :=
  let f := (10 ^ Z.of_nat d)%Z in
  r <- pyround (fmul (fadd n (dec 1 12)) (of_int f)) ;;
  Ok (fdiv (of_int r) (of_int f)).

Definition lb_to_kg (lb : F) : F := fmul lb (dec 45359237 8).
Definition kg_to_lb (kg : F) : F := fdiv kg (dec 45359237 8).
Definition cm_to_in (cm : F) : F := fdiv cm (dec 254 2).
Definition in_to_cm (inch : F) : F := fmul inch (dec 254 2).

Definition ACTIVITY : list (string * F) :=
  [ ("Sedentary (1.2)"%string, dec 12 1);
    ("Light (1.375)"%string, dec 1375 3);
    ("Moderate (1.55)"%string, dec 155 2);
    ("Very (1.725)"%string, dec 1725 3);
    ("Athlete (1.9)"%string, dec 19 1) ].

(** [d[k]] on a dict kept as its list of items. *)
Fixpoint getitem (d : list (string * F)) (k : string) : result F :=
  match d with
  | [] => Raise KeyError
  | (k', v) :: d' => if String.eqb k' k then Ok v else getitem d' k
  end.

Definition mifflin_st_jeor (sex : string) (weight_kg height_cm : F) (age : Z) : F :=
  let s := if String.eqb sex "Male" then 5%Z else (-161)%Z in
  fadd (fsub (fadd (fmul (of_int 10) weight_kg) (fmul (dec 625 2) height_cm))
             (of_int (5 * age)))
       (of_int s).

Definition katch_mc_ardle (lean_mass_kg : F) : F :=
  fadd (of_int 370) (fmul (dec 216 1) lean_mass_kg).

End Operators.

Arguments num F : clear implicits.
Arguments Int {F} z.
Arguments Float {F} x.

(** ** The sidebar: what the widgets return *)

Record Widgets (F : Type) : Type := {
  units : string;
  sex : string;
  age : Z;
  ft : Z;
  inch : Z;
  weight_lb : F;
  metric_height_cm : F;     (* the "Height (cm)" widget *)
  metric_weight_kg : F;     (* the "Weight (kg)" widget *)
  body_fat : option F;
  activity_label : string;
  base_calorie_delta_pct : Z;
  override_calories : Z;
  base_protein_per_lb : F;
  use_lean_mass : bool;
  base_fat_percent : Z;
  meals : Z;
  preset : string;
  style : string
}.

Arguments units {F} w.
Arguments sex {F} w.
Arguments age {F} w.
Arguments ft {F} w.
Arguments inch {F} w.
Arguments weight_lb {F} w.
Arguments metric_height_cm {F} w.
Arguments metric_weight_kg {F} w.
Arguments body_fat {F} w.
Arguments activity_label {F} w.
Arguments base_calorie_delta_pct {F} w.
Arguments override_calories {F} w.
Arguments base_protein_per_lb {F} w.
Arguments use_lean_mass {F} w.
Arguments base_fat_percent {F} w.
Arguments meals {F} w.
Arguments preset {F} w.
Arguments style {F} w.

(** The values the preset and the style leave for the calculation. *)
Record Goal (F : Type) : Type := {
  calc_calorie_delta_pct : Z;
  calc_protein_per_lb : F;
  calc_fat_percent : Z
}.

Arguments Build_Goal {F} _ _ _.
Arguments calc_calorie_delta_pct {F} g.
Arguments calc_protein_per_lb {F} g.
Arguments calc_fat_percent {F} g.

(** ** Derived values (the script's top-level variables) *)

Section Derived.
Context {F : Type} {A : Arith F}.
Variable w : Widgets F.

Definition imperial : bool := prefix "Imperial" (units w).

Definition height_cm : F :=
  if imperial then in_to_cm (of_int (ft w * 12 + inch w)) else metric_height_cm w.

Definition weight_kg : F :=
  if imperial then lb_to_kg (weight_lb w) else metric_weight_kg w.

Definition lean_mass_kg : option F :=
  match body_fat w with
  | Some b =>
      if fle (of_int 0) b then
        let bf := fdiv (pymin (pymax b (of_int 0)) (of_int 70)) (of_int 100) in
        Some (fmul weight_kg (fsub (of_int 1) bf))
      else None
  | None => None
  end.

(** Choose the BMR formula: the value and the method's name. *)
Definition bmr_choice : F * string :=
  match lean_mass_kg with
  | Some l =>
      if negb (fisnan l) then (katch_mc_ardle l, "Katch–McArdle"%string)
      else (mifflin_st_jeor (sex w) weight_kg height_cm (age w), "Mifflin–St Jeor"%string)
  | None => (mifflin_st_jeor (sex w) weight_kg height_cm (age w), "Mifflin–St Jeor"%string)
  end.

Definition bmr : F := fst bmr_choice.
Definition bmr_method : string := snd bmr_choice.

(** Style first, then the preset. *)
Definition effective_goal : Goal F :=
  let calc_calorie_delta_pct := base_calorie_delta_pct w in
  let calc_protein_per_lb := base_protein_per_lb w in
  let calc_fat_percent := base_fat_percent w in
  let calc_fat_percent :=
    if prefix "Balanced" (style w) then 30%Z
    else if prefix "Low-carb" (style w) then 35%Z
    else 25%Z in
  if negb (String.eqb (preset w) "Custom") then
    if prefix "Cut" (preset w) then
      Build_Goal (-20)%Z (pymax calc_protein_per_lb (of_int 1)) (Z.max calc_fat_percent 25)
    else if prefix "Recomp" (preset w) then
      Build_Goal 0%Z (pymax calc_protein_per_lb (dec 9 1))
        (if ((calc_fat_percent <? 25) || (35 <? calc_fat_percent))%Z then 30%Z
         else calc_fat_percent)
    else if prefix "Lean Bulk" (preset w) then
      Build_Goal 10%Z (pymax calc_protein_per_lb (dec 8 1))
        (if ((calc_fat_percent <? 25) || (35 <? calc_fat_percent))%Z then 30%Z
         else calc_fat_percent)
    else Build_Goal calc_calorie_delta_pct calc_protein_per_lb calc_fat_percent
  else Build_Goal calc_calorie_delta_pct calc_protein_per_lb calc_fat_percent.

(** What follows the lookup [ACTIVITY[activity_label]]. *)
Variable activity_mult : F.

Definition tdee : F := fmul bmr activity_mult.

Definition overridden : bool :=
  negb (override_calories w =? 0)%Z && (0 <? override_calories w)%Z.

Definition target_cal : F :=
  if overridden then of_int (override_calories w)
  else fmul tdee (fadd (of_int 1)
                       (fdiv (of_int (calc_calorie_delta_pct effective_goal)) (of_int 100))).

Definition goal_source : string :=
  if overridden then "Override"%string else "TDEE × goal"%string.

(** Macro math *)
Definition basis_lb : F :=
  match use_lean_mass w, lean_mass_kg with
  | true, Some l => kg_to_lb l
  | _, _ => kg_to_lb weight_kg
  end.

Definition grams_protein : F := fmul basis_lb (calc_protein_per_lb effective_goal).
Definition kcal_protein : F := fmul grams_protein (of_int 4).

Definition kcal_fat : F :=
  fmul target_cal (fdiv (of_int (calc_fat_percent effective_goal)) (of_int 100)).
Definition grams_fat : F := fdiv kcal_fat (of_int 9).

Definition kcal_carb : F :=
  pymax (fsub target_cal (fadd kcal_protein kcal_fat)) (of_int 0).
Definition grams_carb : F := fdiv kcal_carb (of_int 4).

(** [(kcal / target_cal) * 100.0 if target_cal > 0 else 0.0] *)
Definition percent_of (kcal : F) : result F :=
  if flt (of_int 0) target_cal then
    q <- pydiv kcal target_cal ;; Ok (fmul q (of_int 100))
  else Ok (of_int 0).

Definition pct_protein : result F := percent_of kcal_protein.
Definition pct_fat : result F := percent_of kcal_fat.
Definition pct_carb : result F := percent_of kcal_carb.

Definition delta_pct : result F :=
  if flt (of_int 0) tdee then
    q <- pydiv (fsub target_cal tdee) tdee ;; Ok (fmul q (of_int 100))
  else Ok (of_int 0).

(** [round_n(grams / meals, 1) if meals else 0] *)
Definition per_meal_of (grams : F) : result (num F) :=
  if negb (meals w =? 0)%Z then
    q <- pydiv_int grams (meals w) ;; r <- round_n q 1 ;; Ok (Float r)
  else Ok (Int 0).

Definition per_meal_protein : result (num F) := per_meal_of grams_protein.
Definition per_meal_fat : result (num F) := per_meal_of grams_fat.
Definition per_meal_carbs : result (num F) := per_meal_of grams_carb.

End Derived.

(** ** What the script shows and what it exports *)

(** The rows of a macro: grams, calories, percent. *)
Record Macro (F : Type) : Type := {
  g : F;
  kcal : F;
  pct : F
}.

Arguments Build_Macro {F} _ _ _.
Arguments g {F} m.
Arguments kcal {F} m.
Arguments pct {F} m.

(** The numbers on the page: the three metrics with the delta against TDEE,
    the applied settings, the table and the per-meal dict. *)
Module Page.
Record t (F : Type) : Type := {
  bmr : F;
  tdee : F;
  target : F;
  delta_vs_tdee : F;
  calorie_change : Z;
  protein_per_lb : F;
  fat_percent : Z;
  protein : Macro F;
  fat : Macro F;
  carbs : Macro F;
  per_meal : num F * num F * num F
}.
Arguments Build_t {F}.
Arguments bmr {F} t.
Arguments tdee {F} t.
Arguments target {F} t.
Arguments delta_vs_tdee {F} t.
Arguments calorie_change {F} t.
Arguments protein_per_lb {F} t.
Arguments fat_percent {F} t.
Arguments protein {F} t.
Arguments fat {F} t.
Arguments carbs {F} t.
Arguments per_meal {F} t.
End Page.

(** The dict [export_payload], with the keys of its JSON document. *)
Module Payload.
Record inputs (F : Type) : Type := {
  units : string;
  sex : string;
  age : Z;
  height_cm : F;
  weight_kg : F;
  bodyFatPct : option F;
  activity : string;
  calorieDeltaPct_applied : Z;
  overrideCalories : Z;
  proteinPerLb_applied : F;
  useLeanMassForProtein : bool;
  fatPercent_applied : Z;
  meals : Z;
  preset : string;
  style : string
}.
Record results (F : Type) : Type := {
  bmr : F;
  tdee : F;
  targetCalories : F;
  protein : Macro F;
  fat : Macro F;
  carbs : Macro F;
  protein_g : F;
  fat_g : F;
  carbs_g : F
}.
Record t (F : Type) : Type := {
  the_inputs : inputs F;
  the_results : results F
}.
Arguments Build_inputs {F}.
Arguments Build_results {F}.
Arguments Build_t {F}.
Arguments units {F} i.
Arguments sex {F} i.
Arguments age {F} i.
Arguments height_cm {F} i.
Arguments weight_kg {F} i.
Arguments bodyFatPct {F} i.
Arguments activity {F} i.
Arguments calorieDeltaPct_applied {F} i.
Arguments overrideCalories {F} i.
Arguments proteinPerLb_applied {F} i.
Arguments useLeanMassForProtein {F} i.
Arguments fatPercent_applied {F} i.
Arguments meals {F} i.
Arguments preset {F} i.
Arguments style {F} i.
Arguments bmr {F} r.
Arguments tdee {F} r.
Arguments targetCalories {F} r.
Arguments protein {F} r.
Arguments fat {F} r.
Arguments carbs {F} r.
Arguments protein_g {F} r.
Arguments fat_g {F} r.
Arguments carbs_g {F} r.
Arguments the_inputs {F} t.
Arguments the_results {F} t.
End Payload.

Section Script.
Context {F : Type} {A : Arith F}.
Variable w : Widgets F.

(** One row of the table and of the payload: each value at 0 decimals. *)
Definition rounded_macro (grams kcals : F) (percent : result F) : result (Macro F) :=
  p <- percent ;;
  a <- round_n grams 0 ;;
  b <- round_n kcals 0 ;;
  c <- round_n p 0 ;;
  Ok (Build_Macro a b c).

Definition page (activity_mult : F) : result (Page.t F) :=
  r_bmr <- round_n (bmr w) 0 ;;
  r_tdee <- round_n (tdee w activity_mult) 0 ;;
  d <- delta_pct w activity_mult ;;
  r_target <- round_n (target_cal w activity_mult) 0 ;;
  r_delta <- round_n d 1 ;;
  r_protein <- round_n (calc_protein_per_lb (effective_goal w)) 2 ;;
  m_protein <- rounded_macro (grams_protein w) (kcal_protein w)
                             (pct_protein w activity_mult) ;;
  m_fat <- rounded_macro (grams_fat w activity_mult) (kcal_fat w activity_mult)
                         (pct_fat w activity_mult) ;;
  m_carbs <- rounded_macro (grams_carb w activity_mult) (kcal_carb w activity_mult)
                           (pct_carb w activity_mult) ;;
  pm_protein <- per_meal_protein w ;;
  pm_fat <- per_meal_fat w activity_mult ;;
  pm_carbs <- per_meal_carbs w activity_mult ;;
  Ok (Page.Build_t r_bmr r_tdee r_target r_delta
        (calc_calorie_delta_pct (effective_goal w)) r_protein
        (calc_fat_percent (effective_goal w))
        m_protein m_fat m_carbs (pm_protein, pm_fat, pm_carbs)).

Definition export_payload (activity_mult : F) : result (Payload.t F) :=
  r_height <- round_n (height_cm w) 1 ;;
  r_weight <- round_n (weight_kg w) 1 ;;
  r_bmr <- round_n (bmr w) 0 ;;
  r_tdee <- round_n (tdee w activity_mult) 0 ;;
  r_target <- round_n (target_cal w activity_mult) 0 ;;
  m_protein <- rounded_macro (grams_protein w) (kcal_protein w)
                             (pct_protein w activity_mult) ;;
  m_fat <- rounded_macro (grams_fat w activity_mult) (kcal_fat w activity_mult)
                         (pct_fat w activity_mult) ;;
  m_carbs <- rounded_macro (grams_carb w activity_mult) (kcal_carb w activity_mult)
                           (pct_carb w activity_mult) ;;
  pm_protein <- per_meal_protein w ;;
  pm_fat <- per_meal_fat w activity_mult ;;
  pm_carbs <- per_meal_carbs w activity_mult ;;
  x_protein <- round_n (to_float pm_protein) 1 ;;
  x_fat <- round_n (to_float pm_fat) 1 ;;
  x_carbs <- round_n (to_float pm_carbs) 1 ;;
  Ok (Payload.Build_t
        (Payload.Build_inputs
           (if imperial w then "imperial"%string else "metric"%string)
           (sex w) (age w) r_height r_weight (body_fat w) (activity_label w)
           (calc_calorie_delta_pct (effective_goal w)) (override_calories w)
           (calc_protein_per_lb (effective_goal w)) (use_lean_mass w)
           (calc_fat_percent (effective_goal w)) (meals w) (preset w) (style w))
        (Payload.Build_results r_bmr r_tdee r_target m_protein m_fat m_carbs
           x_protein x_fat x_carbs)).

(** A run of the script: the lookup of the activity, the page, the payload. *)
Definition script : result (Page.t F * Payload.t F) :=
  activity_mult <- getitem ACTIVITY (activity_label w) ;;
  s <- page activity_mult ;;
  x <- export_payload activity_mult ;;
  Ok (s, x).

End Script.

(** ** The closed sets of the form, and the goal resolver in the spec's words *)

Inductive Preset : Set := Custom | Cut | Recomp | LeanBulk.
Inductive Activity : Set := Sedentary | Light | Moderate | Very | Athlete.
Inductive GoalSource : Set := Override | TdeeTimesGoal.
Inductive BmrMethod : Set := KatchMcArdle | MifflinStJeor.

(** The options of the three select boxes. *)
Definition preset_label (p : Preset) : string :=
  match p with
  | Custom => "Custom"
  | Cut => "Cut (-20%)"
  | Recomp => "Recomp (0%)"
  | LeanBulk => "Lean Bulk (+10%)"
  end.


Definition activity_name (a : Activity) : string :=
  match a with
  | Sedentary => "Sedentary (1.2)"
  | Light => "Light (1.375)"
  | Moderate => "Moderate (1.55)"
  | Very => "Very (1.725)"
  | Athlete => "Athlete (1.9)"
  end.

Definition goal_source_name (s : GoalSource) : string :=
  match s with
  | Override => "Override"
  | TdeeTimesGoal => "TDEE × goal"
  end.

Definition bmr_method_name (m : BmrMethod) : string :=
  match m with
  | KatchMcArdle => "Katch–McArdle"
  | MifflinStJeor => "Mifflin–St Jeor"
  end.

Section Spec.
Context {F : Type} {A : Arith F}.

Definition multiplier (a : Activity) : F :=
  match a with
  | Sedentary => dec 12 1
  | Light => dec 1375 3
  | Moderate => dec 155 2
  | Very => dec 1725 3
  | Athlete => dec 19 1
  end.







(** The computed values of a run (everything before rounding). *)
Record Values : Type := {
  v_bmr : F;
  v_bmr_method : string;
  v_tdee : F;
  v_target_cal : F;
  v_goal_source : string;
  v_protein : F * F * result F;
  v_fat : F * F * result F;
  v_carbs : F * F * result F;
  v_per_meal : result (num F) * result (num F) * result (num F)
}.

Definition values (w : Widgets F) (activity_mult : F) : Values :=
  {| v_bmr := bmr w;
     v_bmr_method := bmr_method w;
     v_tdee := tdee w activity_mult;
     v_target_cal := target_cal w activity_mult;
     v_goal_source := goal_source w;
     v_protein := (grams_protein w, kcal_protein w, pct_protein w activity_mult);
     v_fat := (grams_fat w activity_mult, kcal_fat w activity_mult,
               pct_fat w activity_mult);
     v_carbs := (grams_carb w activity_mult, kcal_carb w activity_mult,
                 pct_carb w activity_mult);
     v_per_meal := (per_meal_protein w, per_meal_fat w activity_mult,
                    per_meal_carbs w activity_mult) |}.

End Spec.

(** ** Relations between runs, and the input contract *)


Section Contract.
Context {F : Type} {A : Arith F}.

(** The run with the "Fat % of calories" slider moved to [f]. *)
Definition with_base_fat (w : Widgets F) (f : Z) : Widgets F :=
  {| units := units w; sex := sex w; age := age w; ft := ft w; inch := inch w;
     weight_lb := weight_lb w; metric_height_cm := metric_height_cm w;
     metric_weight_kg := metric_weight_kg w; body_fat := body_fat w;
     activity_label := activity_label w;
     base_calorie_delta_pct := base_calorie_delta_pct w;
     override_calories := override_calories w;
     base_protein_per_lb := base_protein_per_lb w;
     use_lean_mass := use_lean_mass w; base_fat_percent := f;
     meals := meals w; preset := preset w; style := style w |}.

Definition between (lo x hi : F) : bool := fle lo x && fle x hi.
Definition betweenZ (lo x hi : Z) : bool := ((lo <=? x) && (x <=? hi))%Z.

(** The bounds the widgets enforce (min_value and max_value of each). *)
Definition valid (w : Widgets F) : bool :=
  betweenZ 14 (age w) 90 &&
  (if imperial w
   then betweenZ 3 (ft w) 8 && betweenZ 0 (inch w) 11 &&
        between (of_int 60) (weight_lb w) (of_int 600)
   else between (of_int 120) (metric_height_cm w) (of_int 230) &&
        between (of_int 30) (metric_weight_kg w) (of_int 250)) &&
  match body_fat w with
  | Some b => between (of_int 0) b (of_int 70)
  | None => true
  end &&
  betweenZ (-30) (base_calorie_delta_pct w) 20 &&
  betweenZ 0 (override_calories w) 10000 &&
  between (dec 6 1) (base_protein_per_lb w) (dec 12 1) &&
  betweenZ 20 (base_fat_percent w) 40 &&
  betweenZ 1 (meals w) 8.

(** What the proofs about division need of an arithmetic. *)
Class Lawful : Prop := {
  positive_nonzero : forall x : F, flt (of_int 0) x = true -> feq x (of_int 0) = false;
  nonpositive_not_positive : forall x : F, fle x (of_int 0) = true -> flt (of_int 0) x = false;
  pyround_no_zero_division : forall x : F, is_zero_division (pyround x) = false
}.

End Contract.

Arguments Lawful F {A}.

(** ** Concrete runs *)

Open Scope string_scope.

(** The form as it opens. *)
Definition defaults : Widgets float :=
  {| units := "Imperial (lb, ft/in)"; sex := "Male"; age := 30%Z; ft := 5%Z; inch := 10%Z;
     weight_lb := 170%float; metric_height_cm := 178%float;
     metric_weight_kg := 77.1%float;
     body_fat := Some 18%float; activity_label := "Moderate (1.55)";
     base_calorie_delta_pct := 0%Z; override_calories := 0%Z;
     base_protein_per_lb := 0.9%float; use_lean_mass := true; base_fat_percent := 30%Z;
     meals := 3%Z; preset := "Custom"; style := "Balanced (30% fat)" |}.

(** Metric units with the given height, weight and body fat, the rest as it opens. *)
Definition metric_run (h k : float) (bf : option float) : Widgets float :=
  {| units := "Metric (kg, cm)"; sex := "Male"; age := 30%Z; ft := 5%Z; inch := 10%Z;
     weight_lb := 170%float; metric_height_cm := h; metric_weight_kg := k;
     body_fat := bf; activity_label := "Moderate (1.55)";
     base_calorie_delta_pct := 0%Z; override_calories := 0%Z;
     base_protein_per_lb := 0.9%float; use_lean_mass := true; base_fat_percent := 30%Z;
     meals := 3%Z; preset := "Custom"; style := "Balanced (30% fat)" |}.

(** The profile of the spec's example: Male, 30, 178 cm, 77.1 kg, body fat 0. *)
Definition spec_example : Widgets float := metric_run 178%float 77.1%float (Some 0%float).

(** The form as it opens, then Low-carb with the Cut preset. *)
Definition cut_run : Widgets float :=
  {| units := "Imperial (lb, ft/in)"; sex := "Male"; age := 30%Z; ft := 5%Z; inch := 10%Z;
     weight_lb := 170%float; metric_height_cm := 178%float;
     metric_weight_kg := 77.1%float;
     body_fat := Some 18%float; activity_label := "Moderate (1.55)";
     base_calorie_delta_pct := 5%Z; override_calories := 0%Z;
     base_protein_per_lb := 0.9%float; use_lean_mass := true; base_fat_percent := 22%Z;
     meals := 3%Z; preset := "Cut (-20%)"; style := "Low-carb (35% fat)" |}.

(** A run whose BMR, TDEE and target are 0, with no meals. *)
Definition degenerate_run : Widgets float :=
  {| units := "Metric (kg, cm)"; sex := "Male"; age := 30%Z; ft := 5%Z; inch := 10%Z;
     weight_lb := 170%float; metric_height_cm := 0%float;
     metric_weight_kg := 14.5%float;
     body_fat := None; activity_label := "Moderate (1.55)";
     base_calorie_delta_pct := 0%Z; override_calories := 0%Z;
     base_protein_per_lb := 0.9%float; use_lean_mass := true; base_fat_percent := 30%Z;
     meals := 0%Z; preset := "Custom"; style := "Balanced (30% fat)" |}.

(** Two valid metric runs on which binary64 rounding shows in the sums:
    51 kg and 32 kg, the rest as the form opens. *)
Definition budget_run : Widgets float := metric_run 178%float 51%float (Some 18%float).
Definition percent_run : Widgets float := metric_run 178%float 32%float (Some 18%float).

(** A valid metric run with a height between two whole centimetres. *)
Definition half_cm_run : Widgets float :=
  metric_run 178.5%float 77.1%float (Some 18%float).

(** The target of a zero TDEE, for a calorie change of [d] percent. *)
Definition zero_target (z : float) (d : Z) : bool :=
  feq (fmul z (fadd (of_int 1) (fdiv (of_int d) (of_int 100)))) (of_int 0).

Section RoundingDefs.
Context {F : Type} {A : Arith F}.



End RoundingDefs.

(** The calorie change a preset stands for, in percent. *)
Definition preset_delta (p : Preset) (base : Z) : Z :=
  match p with
  | Custom => base
  | Cut => (-20)%Z
  | Recomp => 0%Z
  | LeanBulk => 10%Z
  end.

(** ** The real values of doubles

    [SpecFloat] gives the operations of binary64 on mantissas and exponents;
    the definitions below give a double its value as a rational number and
    say what it means for a result to be a rounding of an exact value. *)

(** [m * 2^e]. *)
Definition F2Q (m e : Z) : Q := (inject_Z m * 2 ^ e)%Q.

(** The value of a finite float; an infinity and NaN have none and are given
    0: every statement about a value comes with [sfinite]. *)
Definition sval (x : spec_float) : Q :=
  match x with
  | S754_finite s m e => F2Q (cond_Zopp s (Zpos m)) e
  | _ => 0%Q
  end.

Definition sfinite (x : spec_float) : bool :=
  match x with
  | S754_zero _ | S754_finite _ _ _ => true
  | _ => false
  end.

(** [v] lies in the unit interval of [m] at exponent [e]; a location that
    is not exact means [v] is strictly above the lower end. *)
Definition inb (m e : Z) (strict : bool) (v : Q) : Prop :=
  (F2Q m e <= v)%Q /\ (v < F2Q (m + 1) e)%Q /\ (strict = true -> (F2Q m e < v)%Q).

Definition strict_loc (l : location) : bool :=
  match l with
  | loc_Exact => false
  | loc_Inexact _ => true
  end.

Definition inb_rec (mrs : shr_record) (e : Z) (v : Q) : Prop :=
  inb (shr_m mrs) e (shr_r mrs || shr_s mrs) v.

(** [r] is a rounding of the exact value [v] that no double separates from
    it: a double below [v] is below [r], a double above [v] is above [r]. So
    [r] is [v] rounded down or up to a neighbouring double (which of the two
    is left open), or an infinity when [v] is beyond the largest double. *)
Definition rounds_to (r : spec_float) (v : Q) : Prop :=
  (forall f, valid_binary f = true -> sfinite f = true ->
             (sval f <= v)%Q -> SFleb f r = true) /\
  (forall f, valid_binary f = true -> sfinite f = true ->
             (v <= sval f)%Q -> SFleb r f = true).

(** The same for primitive floats. *)
Definition fval (x : float) : Q := sval (Prim2SF x).
Definition ffin (x : float) : bool := sfinite (Prim2SF x).

(** [x] is finite and its value lies in [[lo, hi]]. *)
Definition inQ (x : float) (lo hi : Q) : Prop :=
  ffin x = true /\ (lo <= fval x <= hi)%Q.

Definition inQb (x : float) (lo hi : Q) : bool :=
  ffin x && Qle_bool lo (fval x) && Qle_bool (fval x) hi.

(** [q] is the value of a finite double. *)
Definition repr (q : Q) : Prop := exists f : float, ffin f = true /\ (fval f == q)%Q.

(** [a] and [b] differ by at most [tol]. *)
Definition close (tol a b : Q) : Prop := (Qabs (a - b) <= tol)%Q.

(** What the spec's "approximately equal" allows in the budget identities:
    [2^-35] kcal (about 3e-11) and [2^-28] percent points (about 4e-9). *)
Definition kcal_tolerance : Q := (1 # 34359738368)%Q.
Definition percent_tolerance : Q := (1 # 268435456)%Q.

(** Half a unit of the [d]-th decimal place. *)
Definition half_unit (d : nat) : Q := ((1 # 2) / inject_Z (10 ^ Z.of_nat d))%Q.

(** What the float operations of [round_n] add to the error: [2^-24]. *)
Definition round_n_slack : Q := (1 # 16777216)%Q.

(** The run with "Use lean mass for protein" unticked. *)
Definition with_lean_mass_off (w : Widgets float) : Widgets float :=
  {| units := units w; sex := sex w; age := age w; ft := ft w; inch := inch w;
     weight_lb := weight_lb w; metric_height_cm := metric_height_cm w;
     metric_weight_kg := metric_weight_kg w; body_fat := body_fat w;
     activity_label := activity_label w;
     base_calorie_delta_pct := base_calorie_delta_pct w;
     override_calories := override_calories w;
     base_protein_per_lb := base_protein_per_lb w;
     use_lean_mass := false; base_fat_percent := base_fat_percent w;
     meals := meals w; preset := preset w; style := style w |}.

(** * Properties *)

(** ** The monad *)

Lemma bind_ok {A B : Type} (r : result A) (k : A -> result B) (b : B) :
  bind r k = Ok b -> exists a, r = Ok a /\ k a = Ok b.
Proof.
  destruct r as [a|e]; simpl; intros H; [eauto | discriminate].
Qed.

Lemma bind_no_zero_division {A B : Type} (r : result A) (k : A -> result B) :
  is_zero_division r = false ->
  (forall a, is_zero_division (k a) = false) ->
  is_zero_division (bind r k) = false.
Proof.
  destruct r as [a|e]; simpl; intros Hr Hk; [apply Hk | exact Hr].
Qed.

Lemma raised_none {A : Type} (r : result A) :
  raised r = None -> is_zero_division r = false.
Proof.
  destruct r; simpl; [reflexivity | discriminate].
Qed.

(** ** binary64: literals and comparisons with zero *)

Lemma Z2float_0 : Z2float 0 = 0%float.
Proof. reflexivity. Qed.

(** The quotient [dec n k] is the double Python reads from the literal. *)
Example literals_binary64 :
  dec 1 12 = 1e-12%float /\ dec 45359237 8 = 0.45359237%float /\
  dec 254 2 = 2.54%float /\ dec 625 2 = 6.25%float /\ dec 216 1 = 21.6%float /\
  dec 9 1 = 0.9%float /\ dec 8 1 = 0.8%float /\
  (ACTIVITY : list (string * float)) =
    [ ("Sedentary (1.2)", 1.2%float); ("Light (1.375)", 1.375%float);
      ("Moderate (1.55)", 1.55%float); ("Very (1.725)", 1.725%float);
      ("Athlete (1.9)", 1.9%float) ].
Proof. repeat split; reflexivity. Qed.

Lemma float_zero_cases (x : float) :
  PrimFloat.eqb x 0 = true -> x = 0%float \/ x = (-0)%float.
Proof.
  rewrite eqb_spec. change (Prim2SF 0) with (S754_zero false). intros H.
  rewrite <- (SF2Prim_Prim2SF x).
  destruct (Prim2SF x) as [s| s | |s m e]; try discriminate H.
  - destruct s; [right | left]; reflexivity.
  - destruct s; discriminate H.
  - destruct s; discriminate H.
Qed.

#[export] Instance binary64_lawful : Lawful float.
Proof.
  split.
  - intros x. cbn [flt feq of_int binary64]. rewrite Z2float_0, ltb_spec, eqb_spec.
    change (Prim2SF 0) with (S754_zero false).
    destruct (Prim2SF x) as [s| s | |s m e]; try reflexivity; try discriminate;
      destruct s; try reflexivity; discriminate.
  - intros x. cbn [flt fle of_int binary64]. rewrite Z2float_0, ltb_spec, leb_spec.
    change (Prim2SF 0) with (S754_zero false).
    destruct (Prim2SF x) as [s| s | |s m e]; try reflexivity; try discriminate;
      destruct s; try reflexivity; discriminate.
  - intros x. cbn [pyround binary64]. unfold float_round.
    destruct (Prim2SF x); reflexivity.
Qed.

(** ** BMR selection *)

Section Selection.
Context {F : Type} {A : Arith F}.
Variable w : Widgets F.

Lemma bmr_without_body_fat :
  body_fat w = None ->
  bmr w = mifflin_st_jeor (sex w) (weight_kg w) (height_cm w) (age w) /\
  bmr_method w = bmr_method_name MifflinStJeor.
Proof.
  intros H. unfold bmr, bmr_method, bmr_choice, lean_mass_kg. rewrite H. split; reflexivity.
Qed.

Lemma bmr_with_body_fat (b : F) :
  body_fat w = Some b ->
  fle (of_int 0) b = true ->
  let lean := fmul (weight_kg w)
                (fsub (of_int 1)
                   (fdiv (pymin (pymax b (of_int 0)) (of_int 70)) (of_int 100))) in
  fisnan lean = false ->
  lean_mass_kg w = Some lean /\
  bmr w = fadd (of_int 370) (fmul (dec 216 1) lean) /\
  bmr_method w = bmr_method_name KatchMcArdle.
Proof.
  intros Hb Hge lean Hnan.
  unfold bmr, bmr_method, bmr_choice, lean_mass_kg. rewrite Hb, Hge.
  fold lean. rewrite Hnan. repeat split; reflexivity.
Qed.

End Selection.

(** Body fat 18 selects Katch-McArdle, no body fat selects Mifflin-St Jeor
    (which gives the 1738.5 of the example). *)
Example bmr_body_fat_18 :
  bmr (metric_run 178 77.1 (Some 18%float)) = 1735.5952000000002%float /\
  bmr_method (metric_run 178 77.1 (Some 18%float)) = bmr_method_name KatchMcArdle.
Proof. split; reflexivity. Qed.

Example bmr_body_fat_none :
  bmr (metric_run 178 77.1 None) = 1738.5%float /\
  bmr_method (metric_run 178 77.1 None) = bmr_method_name MifflinStJeor.
Proof. split; reflexivity. Qed.

(** C1 (the code departs from the claim). With body fat 0 the claim expects
    Mifflin-St Jeor and a BMR of 1738.5 for Male, 30, 178 cm, 77.1 kg. The
    script tests [body_fat >= 0], so 0 counts as supplied: lean mass is the
    whole weight, the method is Katch-McArdle and the BMR is 370 + 21.6 * 77.1,
    not the Mifflin-St Jeor value 1738.5. *)
Theorem C1_body_fat_zero_selects_katch :
  body_fat spec_example = Some 0%float /\
  lean_mass_kg spec_example = Some 77.1%float /\
  bmr_method spec_example = bmr_method_name KatchMcArdle /\
  bmr spec_example = 2035.3599999999999%float /\
  mifflin_st_jeor (sex spec_example) (weight_kg spec_example)
    (height_cm spec_example) (age spec_example) = 1738.5%float.
Proof. repeat split; reflexivity. Qed.

(** ** Goal resolver *)

Section Resolver.
Context {F : Type} {A : Arith F}.



End Resolver.



(** ** TDEE and target calories *)

Section Target.
Context {F : Type} {A : Arith F}.

Lemma overridden_iff_positive (w : Widgets F) :
  overridden w = (0 <? override_calories w)%Z.
Proof.
  unfold overridden.
  destruct (Z.eqb_spec (override_calories w) 0) as [E|E]; simpl.
  - rewrite E. reflexivity.
  - reflexivity.
Qed.

Lemma activity_lookup (a : Activity) :
  getitem ACTIVITY (activity_name a) = Ok (multiplier a).
Proof. destruct a; reflexivity. Qed.

(** A label is looked up to one of the five multipliers, or the lookup raises. *)
Lemma activity_closed (label : string) :
  match getitem ACTIVITY label with
  | Ok m => exists a, label = activity_name a /\ m = multiplier a
  | Raise e => e = KeyError
  end.
Proof.
  unfold ACTIVITY, getitem.
  repeat match goal with
  | |- context [String.eqb ?k label] =>
      destruct (String.eqb_spec k label) as [<-|_]
  end;
  try reflexivity;
  [ exists Sedentary | exists Light | exists Moderate | exists Very | exists Athlete ];
  split; reflexivity.
Qed.

End Target.

(** C3. TDEE is BMR times the activity multiplier, and the multiplier of a
    label is one of the five of the table (any other label raises KeyError);
    with override_calories > 0 the target is override_calories and the source
    is Override, whatever TDEE is; otherwise the target is
    TDEE * (1 + effective delta / 100) and the source is TDEE x goal. *)
Theorem C3_target_calories :
  forall (F : Type) (A : Arith F) (w : Widgets F) (m : F),
    tdee w m = fmul (bmr w) m /\
    (forall a : Activity, getitem ACTIVITY (activity_name a) = Ok (multiplier a)) /\
    (forall label : string,
        match getitem (ACTIVITY : list (string * F)) label with
        | Ok m' => exists a, label = activity_name a /\ m' = multiplier a
        | Raise e => e = KeyError
        end) /\
    (target_cal w m, goal_source w) =
      if (0 <? override_calories w)%Z
      then (of_int (override_calories w), goal_source_name Override)
      else (fmul (tdee w m)
              (fadd (of_int 1)
                 (fdiv (of_int (calc_calorie_delta_pct (effective_goal w))) (of_int 100))),
            goal_source_name TdeeTimesGoal).
Proof.
  intros F A w m. split; [reflexivity | ].
  split; [apply activity_lookup | ].
  split; [apply activity_closed | ].
  unfold target_cal, goal_source. rewrite overridden_iff_positive.
  destruct (0 <? override_calories w)%Z; reflexivity.
Qed.

(** ** Macro split *)


(** ** What the preset and the style leave *)

Lemma effective_fat_percent_cases {F : Type} {A : Arith F} (w : Widgets F) :
  calc_fat_percent (effective_goal w) = 25%Z \/
  calc_fat_percent (effective_goal w) = 30%Z \/
  calc_fat_percent (effective_goal w) = 35%Z.
Proof.
  unfold effective_goal.
  destruct (prefix "Balanced" (style w)), (prefix "Low-carb" (style w)),
    (negb (String.eqb (preset w) "Custom")), (prefix "Cut" (preset w)),
    (prefix "Recomp" (preset w)), (prefix "Lean Bulk" (preset w));
    cbn; tauto.
Qed.

Lemma effective_delta_cases {F : Type} {A : Arith F} (w : Widgets F) :
  In (calc_calorie_delta_pct (effective_goal w))
     [base_calorie_delta_pct w; (-20)%Z; 0%Z; 10%Z].
Proof.
  unfold effective_goal.
  destruct (negb (String.eqb (preset w) "Custom")), (prefix "Cut" (preset w)),
    (prefix "Recomp" (preset w)), (prefix "Lean Bulk" (preset w));
    cbn; tauto.
Qed.

(** * Binary64: values and rounding

    Everything below is about the doubles the script computes. The rounding
    of an operation is taken from [SpecFloat] ([binary_round_aux] and the
    functions around it), to which [FloatAxioms] ties the primitive
    operations; a result is related to the exact rational value by
    [rounds_to]. *)

Section Binary64.
Local Open Scope Z_scope.

(** ** Powers of two in Q *)

Lemma pow2_pos (e : Z) : (0 < 2 ^ e)%Q.
Proof. apply Qpower_0_lt. reflexivity. Qed.

Lemma pow2_add (a b : Z) : (2 ^ (a + b) == 2 ^ a * 2 ^ b)%Q.
Proof. apply Qpower_plus. discriminate. Qed.

Lemma pow2_inject (k : Z) : 0 <= k -> (2 ^ k == inject_Z (2 ^ k))%Q.
Proof. intros H. rewrite Zpower_Qpower by exact H. reflexivity. Qed.

Lemma pow2_le (a b : Z) : a <= b -> (2 ^ a <= 2 ^ b)%Q.
Proof.
  intros H. replace b with (a + (b - a)) by ring. rewrite pow2_add.
  rewrite (pow2_inject (b - a)) by lia.
  assert (H1 : (1 <= inject_Z (2 ^ (b - a)))%Q).
  { change 1%Q with (inject_Z 1). rewrite <- Zle_Qle.
    pose proof (Z.pow_pos_nonneg 2 (b - a)). lia. }
  pose proof (pow2_pos a). nra.
Qed.

Lemma F2Q_shift (m e k : Z) : 0 <= k -> (F2Q (m * 2 ^ k) e == F2Q m (e + k))%Q.
Proof.
  intros H. unfold F2Q. rewrite pow2_add, inject_Z_mult, (pow2_inject k) by exact H. ring.
Qed.

Lemma F2Q_le_same (m1 m2 e : Z) : m1 <= m2 -> (F2Q m1 e <= F2Q m2 e)%Q.
Proof.
  intros H. unfold F2Q. rewrite Zle_Qle in H. pose proof (pow2_pos e). nra.
Qed.

Lemma F2Q_lt_same (m1 m2 e : Z) : m1 < m2 -> (F2Q m1 e < F2Q m2 e)%Q.
Proof.
  intros H. unfold F2Q. rewrite Zlt_Qlt in H. pose proof (pow2_pos e). nra.
Qed.

Lemma F2Q_le_same_inv (m1 m2 e : Z) : (F2Q m1 e <= F2Q m2 e)%Q -> m1 <= m2.
Proof.
  intros H. destruct (Z_le_gt_dec m1 m2) as [L|G]; [exact L|].
  exfalso. assert (G' : m2 < m1) by lia. apply (F2Q_lt_same _ _ e) in G'. lra.
Qed.

Lemma F2Q_lt_same_inv (m1 m2 e : Z) : (F2Q m1 e < F2Q m2 e)%Q -> m1 < m2.
Proof.
  intros H. destruct (Z_lt_ge_dec m1 m2) as [L|G]; [exact L|].
  exfalso. assert (G' : m2 <= m1) by lia. apply (F2Q_le_same _ _ e) in G'. lra.
Qed.

(** A value below [2^a] at exponent [e1] is below one from [2^b] on at
    exponent [e2] when [a + e1 <= b + e2]. *)
Lemma F2Q_lt_digits (m1 e1 m2 e2 a b : Z) :
  0 <= a -> 0 <= b ->
  m1 < 2 ^ a -> 2 ^ b <= m2 -> a + e1 <= b + e2 ->
  (F2Q m1 e1 < F2Q m2 e2)%Q.
Proof.
  intros Ha Hb H1 H2 H.
  apply Qlt_le_trans with (F2Q (2 ^ a) e1); [apply F2Q_lt_same, H1|].
  apply Qle_trans with (F2Q (2 ^ b) e2); [|apply F2Q_le_same, H2].
  unfold F2Q. rewrite <- !pow2_inject by assumption. rewrite <- !pow2_add.
  apply pow2_le. lia.
Qed.

(** ** Digits *)

Lemma digits2_pos_bounds (m : positive) :
  2 ^ (Zpos (digits2_pos m) - 1) <= Zpos m < 2 ^ Zpos (digits2_pos m).
Proof.
  induction m as [m IH|m IH|]; cbn [digits2_pos].
  - rewrite Pos2Z.inj_succ.
    replace (Z.succ (Zpos (digits2_pos m)) - 1) with (Z.succ (Zpos (digits2_pos m) - 1)) by lia.
    rewrite !Z.pow_succ_r by lia. lia.
  - rewrite Pos2Z.inj_succ.
    replace (Z.succ (Zpos (digits2_pos m)) - 1) with (Z.succ (Zpos (digits2_pos m) - 1)) by lia.
    rewrite !Z.pow_succ_r by lia. lia.
  - cbn. lia.
Qed.

Lemma Zdigits2_bounds (m : Z) :
  0 < m -> 2 ^ (Zdigits2 m - 1) <= m < 2 ^ Zdigits2 m.
Proof.
  destruct m as [|p|p]; try lia. intros _. apply digits2_pos_bounds.
Qed.

Lemma Zdigits2_nonneg (m : Z) : 0 <= Zdigits2 m.
Proof. destruct m; cbn; lia. Qed.

(** The number of digits is determined by the bounds. *)
Lemma Zdigits2_unique (m d : Z) :
  0 < d -> 2 ^ (d - 1) <= m < 2 ^ d -> Zdigits2 m = d.
Proof.
  intros Hd [H1 H2].
  assert (Hm : 0 < m) by (pose proof (Z.pow_pos_nonneg 2 (d - 1)); lia).
  pose proof (Zdigits2_bounds m Hm) as [H3 H4].
  pose proof (Zdigits2_nonneg m) as H0.
  destruct (Z.lt_trichotomy (Zdigits2 m) d) as [L|[E|G]]; [exfalso|exact E|exfalso].
  - assert (2 ^ Zdigits2 m <= 2 ^ (d - 1)) by (apply Z.pow_le_mono_r; lia). lia.
  - assert (2 ^ d <= 2 ^ (Zdigits2 m - 1)) by (apply Z.pow_le_mono_r; lia). lia.
Qed.

(** ** Valid floats and their values *)

Lemma bounded_canonical (m : positive) (e : Z) :
  bounded prec emax m e = true ->
  -1074 <= e <= 971 /\ Zpos (digits2_pos m) <= 53 /\
  (-1074 < e -> Zpos (digits2_pos m) = 53).
Proof.
  unfold bounded, canonical_mantissa, fexp, emin, prec, emax.
  intros H. apply andb_prop in H. destruct H as [H1 H2].
  apply Z.eqb_eq in H1. apply Z.leb_le in H2. lia.
Qed.

Lemma F2Q_pos (m : positive) (e : Z) : (0 < F2Q (Zpos m) e)%Q.
Proof.
  unfold F2Q. pose proof (pow2_pos e).
  assert (0 < inject_Z (Zpos m))%Q by (change 0%Q with (inject_Z 0); rewrite <- Zlt_Qlt; lia).
  nra.
Qed.

Lemma F2Q_neg (m : positive) (e : Z) : (F2Q (Zneg m) e < 0)%Q.
Proof.
  unfold F2Q. pose proof (pow2_pos e).
  assert (inject_Z (Zneg m) < 0)%Q by (change 0%Q with (inject_Z 0); rewrite <- Zlt_Qlt; lia).
  nra.
Qed.

Lemma F2Q_opp (m e : Z) : (F2Q (- m) e == - F2Q m e)%Q.
Proof. unfold F2Q. rewrite inject_Z_opp. ring. Qed.

Ltac gen_F2Q :=
  repeat match goal with
  | |- context [F2Q ?m ?e] =>
      let q := fresh "q" in set (q := F2Q m e) in *; clearbody q
  | H : context [F2Q ?m ?e] |- _ =>
      let q := fresh "q" in set (q := F2Q m e) in *; clearbody q
  end.

(** Order of two valid positive mantissa-exponent pairs. *)
Lemma pos_compare_val (m1 m2 : positive) (e1 e2 : Z) :
  bounded prec emax m1 e1 = true ->
  bounded prec emax m2 e2 = true ->
  match (match e1 ?= e2 with
         | Lt => Lt
         | Gt => Gt
         | Eq => Pos.compare_cont Eq m1 m2
         end) with
  | Lt => (F2Q (Zpos m1) e1 < F2Q (Zpos m2) e2)%Q
  | Eq => m1 = m2 /\ e1 = e2
  | Gt => (F2Q (Zpos m2) e2 < F2Q (Zpos m1) e1)%Q
  end.
Proof.
  intros V1 V2.
  apply bounded_canonical in V1, V2.
  destruct V1 as (B1 & D1 & N1), V2 as (B2 & D2 & N2).
  pose proof (digits2_pos_bounds m1) as [L1 U1].
  pose proof (digits2_pos_bounds m2) as [L2 U2].
  destruct (Z.compare_spec e1 e2) as [E|L|G].
  - subst e2. change (Pos.compare_cont Eq m1 m2) with (m1 ?= m2)%positive.
    destruct (Pos.compare_spec m1 m2) as [E|L|G].
    + split; [exact E | reflexivity].
    + apply F2Q_lt_same. lia.
    + apply F2Q_lt_same. lia.
  - apply (F2Q_lt_digits _ _ _ _ (Zpos (digits2_pos m1)) 52); try lia.
    rewrite N2 in L2 by lia. exact L2.
  - apply (F2Q_lt_digits _ _ _ _ (Zpos (digits2_pos m2)) 52); try lia.
    rewrite N1 in L1 by lia. exact L1.
Qed.

(** Comparison of valid finite floats is comparison of their values. *)
Lemma SFcompare_val (x y : spec_float) :
  valid_binary x = true -> valid_binary y = true ->
  sfinite x = true -> sfinite y = true ->
  SFcompare x y = Some (sval x ?= sval y)%Q.
Proof.
  intros Vx Vy Fx Fy.
  destruct x as [sx|sx| |sx mx ex]; try discriminate Fx;
  destruct y as [sy|sy| |sy my ey]; try discriminate Fy;
  cbn [SFcompare sval].
  - reflexivity.
  - f_equal. symmetry. destruct sy; cbn [cond_Zopp Z.opp].
    + apply -> Qgt_alt. apply F2Q_neg.
    + apply -> Qlt_alt. apply F2Q_pos.
  - f_equal. symmetry. destruct sx; cbn [cond_Zopp Z.opp].
    + apply -> Qlt_alt. apply F2Q_neg.
    + apply -> Qgt_alt. apply F2Q_pos.
  - cbn [valid_binary] in Vx, Vy. f_equal. symmetry.
    destruct sx, sy; cbn [cond_Zopp Z.opp].
    + pose proof (pos_compare_val mx my ex ey Vx Vy) as H.
      change (Zneg mx) with (- Zpos mx). change (Zneg my) with (- Zpos my).
      destruct (ex ?= ey); [destruct (Pos.compare_cont Eq mx my) | | ];
        cbn [CompOpp]; cbv beta iota in H.
      * apply -> Qeq_alt. destruct H as [-> ->]. reflexivity.
      * apply -> Qgt_alt. rewrite !F2Q_opp. gen_F2Q; lra.
      * apply -> Qlt_alt. rewrite !F2Q_opp. gen_F2Q; lra.
      * apply -> Qgt_alt. rewrite !F2Q_opp. gen_F2Q; lra.
      * apply -> Qlt_alt. rewrite !F2Q_opp. gen_F2Q; lra.
    + apply -> Qlt_alt. pose proof (F2Q_neg mx ex). pose proof (F2Q_pos my ey). gen_F2Q; lra.
    + apply -> Qgt_alt. pose proof (F2Q_pos mx ex). pose proof (F2Q_neg my ey). gen_F2Q; lra.
    + pose proof (pos_compare_val mx my ex ey Vx Vy) as H.
      destruct (ex ?= ey); [destruct (Pos.compare_cont Eq mx my) | | ];
        cbv beta iota in H.
      * apply -> Qeq_alt. destruct H as [-> ->]. reflexivity.
      * apply -> Qlt_alt. gen_F2Q; lra.
      * apply -> Qgt_alt. gen_F2Q; lra.
      * apply -> Qlt_alt. gen_F2Q; lra.
      * apply -> Qgt_alt. gen_F2Q; lra.
Qed.

(** ** Shifting right with round and sticky bits *)

Lemma inb_rec_of_loc (m e : Z) (l : location) (v : Q) :
  inb m e (strict_loc l) v -> inb_rec (shr_record_of_loc m l) e v.
Proof.
  unfold inb_rec. destruct l as [|[| |]]; cbn; exact (fun H => H).
Qed.

Lemma F2Q_double (m e : Z) : (F2Q (2 * m) e == F2Q m (e + 1))%Q.
Proof.
  rewrite <- (F2Q_shift m e 1) by lia. change (2 ^ 1) with 2. rewrite Z.mul_comm. reflexivity.
Qed.

(** One shift to the right keeps the value in the unit interval of the
    mantissa, with round and sticky bits telling whether it is strictly inside. *)
Lemma shr_1_inb (mrs : shr_record) (e : Z) (v : Q) :
  0 <= shr_m mrs ->
  inb_rec mrs e v ->
  inb_rec (shr_1 mrs) (e + 1) v /\ shr_m (shr_1 mrs) = shr_m mrs / 2.
Proof.
  destruct mrs as [m r s]. unfold inb_rec, inb. cbn [shr_m shr_r shr_s].
  intros Hm (H1 & H2 & H3).
  assert (D : forall p b : Z, (b = 0 \/ b = 1) -> m = 2 * p + b ->
              (F2Q p (e + 1) <= v)%Q /\ (v < F2Q (p + 1) (e + 1))%Q /\
              ((b = 1 \/ r || s = true) -> (F2Q p (e + 1) < v)%Q) /\ p = m / 2).
  { intros p b Hb Em.
    pose proof (F2Q_double p e) as E1. pose proof (F2Q_double (p + 1) e) as E2.
    assert (L1 : (F2Q (2 * p) e <= F2Q m e)%Q) by (apply F2Q_le_same; lia).
    assert (L2 : (F2Q (m + 1) e <= F2Q (2 * (p + 1)) e)%Q) by (apply F2Q_le_same; lia).
    repeat split.
    - gen_F2Q; lra.
    - gen_F2Q; lra.
    - intros [B|S].
      + assert (L3 : (F2Q (2 * p) e < F2Q m e)%Q) by (apply F2Q_lt_same; lia).
        gen_F2Q; lra.
      + specialize (H3 S). gen_F2Q; lra.
    - subst m. apply (Z.div_unique _ 2 p b); lia. }
  destruct m as [|[p|p|]|p]; try lia; cbn [shr_1 shr_m shr_r shr_s].
  - destruct (D 0 0) as (A & B & C & E); [lia | lia |].
    repeat split; try assumption. intros S. apply C. right.
    destruct r, s; cbn in S |- *; congruence.
  - destruct (D (Zpos p) 1) as (A & B & C & E); [lia | lia |].
    repeat split; try assumption. intros _. apply C. left. reflexivity.
  - destruct (D (Zpos p) 0) as (A & B & C & E); [lia | lia |].
    repeat split; try assumption. intros S. apply C. right.
    destruct r, s; cbn in S |- *; congruence.
  - destruct (D 0 1) as (A & B & C & E); [lia | lia |].
    repeat split; try assumption. intros _. apply C. left. reflexivity.
Qed.

Lemma shr_1_nonneg (mrs : shr_record) : 0 <= shr_m mrs -> 0 <= shr_m (shr_1 mrs).
Proof.
  destruct mrs as [[|[p|p|]|p] r s]; cbn; lia.
Qed.

Lemma iter_shr_1_inb (p : positive) :
  forall (mrs : shr_record) (e : Z) (v : Q),
    0 <= shr_m mrs ->
    inb_rec mrs e v ->
    inb_rec (iter_pos shr_1 p mrs) (e + Zpos p) v /\
    shr_m (iter_pos shr_1 p mrs) = shr_m mrs / 2 ^ Zpos p /\
    0 <= shr_m (iter_pos shr_1 p mrs).
Proof.
  induction p as [p IH|p IH|]; intros mrs e v Hm H; cbn [iter_pos].
  - destruct (shr_1_inb mrs e v Hm H) as [H1 E1].
    pose proof (shr_1_nonneg mrs Hm) as N1.
    destruct (IH _ _ _ N1 H1) as (H2 & E2 & N2).
    destruct (IH _ _ _ N2 H2) as (H3 & E3 & N3).
    replace (e + Zpos p~1) with (e + 1 + Zpos p + Zpos p) by lia.
    split; [exact H3 | split; [ | exact N3]].
    rewrite E3, E2, E1.
    replace (Zpos p~1) with (1 + Zpos p + Zpos p) by lia.
    rewrite !Z.pow_add_r by lia. change (2 ^ 1) with 2.
    pose proof (Z.pow_pos_nonneg 2 (Zpos p)).
    rewrite !Z.div_div by lia. f_equal; ring.
  - destruct (IH _ _ _ Hm H) as (H2 & E2 & N2).
    destruct (IH _ _ _ N2 H2) as (H3 & E3 & N3).
    replace (e + Zpos p~0) with (e + Zpos p + Zpos p) by lia.
    split; [exact H3 | split; [ | exact N3]].
    rewrite E3, E2.
    replace (Zpos p~0) with (Zpos p + Zpos p) by lia.
    rewrite !Z.pow_add_r by lia.
    pose proof (Z.pow_pos_nonneg 2 (Zpos p)).
    rewrite !Z.div_div by lia. f_equal; ring.
  - destruct (shr_1_inb mrs e v Hm H) as [H1 E1].
    split; [exact H1 | split; [ | apply shr_1_nonneg, Hm]].
    rewrite E1. change (2 ^ 1) with 2. reflexivity.
Qed.

(** ** The two stages of [binary_round_aux] *)

Lemma shr_m_of_loc (m : Z) (l : location) : shr_m (shr_record_of_loc m l) = m.
Proof. destruct l as [|[| |]]; reflexivity. Qed.

Lemma Zdigits2_lt_pow (m : Z) : 0 <= m -> m < 2 ^ Zdigits2 m.
Proof.
  intros H. destruct (Z.eq_dec m 0) as [->|N]; [reflexivity|].
  apply Zdigits2_bounds. lia.
Qed.

(** After the first shift the mantissa fits the precision, and is normal
    above the smallest exponent. *)
Lemma shr_fexp_stage (m e : Z) (l : location) (v : Q) :
  0 <= m ->
  e <= fexp prec emax (Zdigits2 m + e) ->
  inb m e (strict_loc l) v ->
  inb_rec (fst (shr_fexp prec emax m e l)) (snd (shr_fexp prec emax m e l)) v /\
  0 <= shr_m (fst (shr_fexp prec emax m e l)) < 2 ^ 53 /\
  -1074 <= snd (shr_fexp prec emax m e l) /\
  (-1074 < snd (shr_fexp prec emax m e l) ->
   2 ^ 52 <= shr_m (fst (shr_fexp prec emax m e l))).
Proof.
  intros Hm Hn Hv. unfold shr_fexp, shr.
  pose proof (Zdigits2_lt_pow m Hm) as Hd.
  pose proof (Zdigits2_nonneg m) as Hd0.
  unfold fexp, emin, prec, emax in *.
  set (d := Zdigits2 m) in *.
  match goal with
  | |- context [match ?n with Zpos _ => _ | _ => _ end] =>
      destruct n as [|p|p] eqn:En
  end.
  - cbn [fst snd]. rewrite shr_m_of_loc.
    split; [apply inb_rec_of_loc, Hv|].
    assert (D53 : d <= 53) by lia.
    assert (P : 2 ^ d <= 2 ^ 53) by (apply Z.pow_le_mono_r; lia).
    split; [lia|]. split; [lia|].
    intros He. assert (D : d = 53) by lia.
    assert (M0 : 0 < m).
    { destruct (Z.eq_dec m 0) as [E0|N0]; [|lia]. subst m. cbn in d. lia. }
    pose proof (Zdigits2_bounds m M0) as [B _]. fold d in B. rewrite D in B. exact B.
  - cbn [fst snd].
    pose proof (inb_rec_of_loc m e l v Hv) as H0.
    assert (M0 : 0 <= shr_m (shr_record_of_loc m l)) by (rewrite shr_m_of_loc; exact Hm).
    destruct (iter_shr_1_inb p _ e v M0 H0) as (H1 & E1 & N1).
    rewrite shr_m_of_loc in E1.
    split; [exact H1|]. rewrite E1.
    pose proof (Z.pow_pos_nonneg 2 (Zpos p)) as Pp.
    split; [split; [apply Z.div_pos; lia|]|split; [lia|]].
    + apply Z.div_lt_upper_bound; [lia|].
      rewrite <- Z.pow_add_r by lia.
      assert (P : 2 ^ d <= 2 ^ (Zpos p + 53)) by (apply Z.pow_le_mono_r; lia). lia.
    + intros He. assert (D : d = Zpos p + 53) by lia.
      assert (M1 : 0 < m).
      { destruct (Z.eq_dec m 0) as [E0|N0]; [|lia]. subst m. cbn in d. lia. }
      pose proof (Zdigits2_bounds m M1) as [B _]. fold d in B. rewrite D in B.
      apply Z.div_le_lower_bound; [lia|].
      rewrite <- Z.pow_add_r by lia.
      replace (Zpos p + 52) with (Zpos p + 53 - 1) by lia. exact B.
  - lia.
Qed.

Lemma round_nearest_even_cases (mrs : shr_record) :
  round_nearest_even (shr_m mrs) (loc_of_shr_record mrs) = shr_m mrs \/
  (round_nearest_even (shr_m mrs) (loc_of_shr_record mrs) = shr_m mrs + 1 /\
   shr_r mrs || shr_s mrs = true).
Proof.
  destruct mrs as [m r s]. destruct r, s; cbn; try destruct (Z.even m); auto.
Qed.

Lemma Zdigits2_le_53 (m : Z) : 0 <= m < 2 ^ 53 -> Zdigits2 m <= 53.
Proof.
  intros [H0 H1]. destruct (Z.eq_dec m 0) as [->|N]; [cbn; lia|].
  pose proof (Zdigits2_bounds m ltac:(lia)) as [B _].
  destruct (Z_le_gt_dec (Zdigits2 m) 53) as [L|G]; [exact L|exfalso].
  assert (2 ^ 53 <= 2 ^ (Zdigits2 m - 1)) by (apply Z.pow_le_mono_r; lia). lia.
Qed.

(** The second shift only renormalises a carry to [2^53]. *)
Lemma shr_fexp_second (m1 e1 : Z) :
  0 <= m1 <= 2 ^ 53 -> -1074 <= e1 ->
  (m1 < 2 ^ 53 /\ shr_m (fst (shr_fexp prec emax m1 e1 loc_Exact)) = m1 /\
   snd (shr_fexp prec emax m1 e1 loc_Exact) = e1) \/
  (m1 = 2 ^ 53 /\ shr_m (fst (shr_fexp prec emax m1 e1 loc_Exact)) = 2 ^ 52 /\
   snd (shr_fexp prec emax m1 e1 loc_Exact) = e1 + 1).
Proof.
  intros [H0 H1] He. unfold shr_fexp, shr, fexp, emin, prec, emax.
  destruct (Z_lt_le_dec m1 (2 ^ 53)) as [L|G].
  - left. split; [exact L|].
    pose proof (Zdigits2_le_53 m1 (conj H0 L)) as D.
    match goal with
    | |- context [match ?n with Zpos _ => _ | _ => _ end] =>
        destruct n as [|p|p] eqn:En
    end; cbn [fst snd shr_record_of_loc shr_m]; try (split; reflexivity).
    exfalso. lia.
  - right. assert (E : m1 = 2 ^ 53) by lia. split; [exact E|]. subst m1.
    change (Zdigits2 (2 ^ 53)) with 54.
    replace (Z.max (54 + e1 - 53) (3 - 1024 - 53) - e1) with 1 by lia.
    cbn [fst snd]. split; [reflexivity | reflexivity].
Qed.

(** What [binary_round_aux] returns, for a value in the unit interval of
    [mx] at [ex] whose exponent is not above the canonical one. *)
Lemma binary_round_aux_spec (s : bool) (mx ex : Z) (lx : location) (v : Q) :
  0 <= mx ->
  ex <= fexp prec emax (Zdigits2 mx + ex) ->
  inb mx ex (strict_loc lx) v ->
  exists (m' e' m1 : Z) (st : bool),
    inb m' e' st v /\ (m1 = m' \/ (m1 = m' + 1 /\ st = true)) /\
    0 <= m' < 2 ^ 53 /\ -1074 <= e' /\ (-1074 < e' -> 2 ^ 52 <= m') /\
    ((m1 = 0 /\ binary_round_aux prec emax s mx ex lx = S754_zero s) \/
     (exists (m2 : positive) (e2 : Z),
        (F2Q (Zpos m2) e2 == F2Q m1 e')%Q /\
        ((e2 <= 971 /\ binary_round_aux prec emax s mx ex lx = S754_finite s m2 e2) \/
         (971 < e2 /\ 2 ^ 52 <= Zpos m2 /\
          binary_round_aux prec emax s mx ex lx = S754_infinity s)))).
Proof.
  intros Hm Hn Hv.
  destruct (shr_fexp_stage mx ex lx v Hm Hn Hv) as (H1 & B1 & E1 & N1).
  unfold binary_round_aux.
  destruct (shr_fexp prec emax mx ex lx) as [mrs' e'] eqn:S1. cbn [fst snd] in *.
  set (m1 := round_nearest_even (shr_m mrs') (loc_of_shr_record mrs')).
  assert (C : m1 = shr_m mrs' \/ (m1 = shr_m mrs' + 1 /\ shr_r mrs' || shr_s mrs' = true))
    by apply round_nearest_even_cases.
  exists (shr_m mrs'), e', m1, (shr_r mrs' || shr_s mrs').
  split; [exact H1|]. split; [exact C|]. split; [exact B1|]. split; [exact E1|].
  split; [exact N1|].
  assert (R : 0 <= m1 <= 2 ^ 53) by lia.
  destruct (shr_fexp_second m1 e' R E1) as [(L & M2 & X2)|(L & M2 & X2)];
    destruct (shr_fexp prec emax m1 e' loc_Exact) as [mrs'' e''] eqn:S2;
    cbn [fst snd] in M2, X2; subst e''; rewrite M2.
  - destruct m1 as [|p|p] eqn:Em; [left; split; reflexivity | | lia].
    right. exists p, e'. split; [reflexivity|].
    unfold prec, emax. change (1024 - 53) with 971.
    destruct (Z.leb_spec e' 971) as [Le|Gt]; [left; split; [exact Le | reflexivity]|].
    right. split; [exact Gt|]. split; [|reflexivity].
    assert (2 ^ 52 <= shr_m mrs') by (apply N1; lia). lia.
  - right. exists (4503599627370496)%positive, (e' + 1). split.
    + rewrite L. change (Zpos 4503599627370496) with (2 ^ 52).
      rewrite <- (F2Q_shift (2 ^ 52) e' 1) by lia. reflexivity.
    + change (2 ^ 52) with (Zpos 4503599627370496).
      unfold prec, emax. change (1024 - 53) with 971.
      destruct (Z.leb_spec (e' + 1) 971) as [Le|Gt]; [left; split; [exact Le | reflexivity]|].
      right. split; [exact Gt|]. split; [lia | reflexivity].
Qed.

(** ** Comparison through values *)

Lemma SFleb_val (x y : spec_float) :
  valid_binary x = true -> valid_binary y = true ->
  sfinite x = true -> sfinite y = true ->
  (SFleb x y = true <-> (sval x <= sval y)%Q).
Proof.
  intros Vx Vy Fx Fy. unfold SFleb. rewrite (SFcompare_val x y Vx Vy Fx Fy).
  rewrite Qle_alt. destruct (sval x ?= sval y)%Q; split; congruence.
Qed.

Lemma SFltb_val (x y : spec_float) :
  valid_binary x = true -> valid_binary y = true ->
  sfinite x = true -> sfinite y = true ->
  (SFltb x y = true <-> (sval x < sval y)%Q).
Proof.
  intros Vx Vy Fx Fy. unfold SFltb. rewrite (SFcompare_val x y Vx Vy Fx Fy).
  rewrite Qlt_alt. destruct (sval x ?= sval y)%Q; split; congruence.
Qed.

Lemma sval_opp (f : spec_float) : (sval (SFopp f) == - sval f)%Q.
Proof.
  destruct f as [s|s| |s m e]; cbn [SFopp sval]; try reflexivity.
  destruct s; cbn [negb cond_Zopp Z.opp]; rewrite <- F2Q_opp; reflexivity.
Qed.

Lemma valid_opp (f : spec_float) : valid_binary (SFopp f) = valid_binary f.
Proof. destruct f; reflexivity. Qed.

Lemma sfinite_opp (f : spec_float) : sfinite (SFopp f) = sfinite f.
Proof. destruct f; reflexivity. Qed.

(** ** No float inside a unit interval of the rounding grid *)

Lemma grid (m' e' : Z) (mf : positive) (ef : Z) :
  bounded prec emax mf ef = true ->
  0 <= m' -> -1074 <= e' -> (-1074 < e' -> 2 ^ 52 <= m') ->
  (F2Q m' e' < F2Q (Zpos mf) ef)%Q ->
  (F2Q (Zpos mf) ef < F2Q (m' + 1) e')%Q ->
  False.
Proof.
  intros V Hm He Hn H1 H2.
  apply bounded_canonical in V. destruct V as (Be & D & _).
  pose proof (digits2_pos_bounds mf) as [_ U].
  assert (U53 : Zpos mf < 2 ^ 53).
  { assert (2 ^ Zpos (digits2_pos mf) <= 2 ^ 53) by (apply Z.pow_le_mono_r; lia). lia. }
  destruct (Z_le_gt_dec e' ef) as [L|G].
  - assert (E : (F2Q (Zpos mf) ef == F2Q (Zpos mf * 2 ^ (ef - e')) e')%Q).
    { rewrite F2Q_shift by lia. replace (e' + (ef - e')) with ef by ring. reflexivity. }
    rewrite E in H1, H2.
    apply F2Q_lt_same_inv in H1, H2. lia.
  - assert (E1 : (F2Q m' e' == F2Q (m' * 2 ^ (e' - ef)) ef)%Q).
    { rewrite F2Q_shift by lia. replace (ef + (e' - ef)) with e' by ring. reflexivity. }
    rewrite E1 in H1. apply F2Q_lt_same_inv in H1.
    assert (P : 2 ^ 1 <= 2 ^ (e' - ef)) by (apply Z.pow_le_mono_r; lia).
    change (2 ^ 1) with 2 in P.
    assert (M : 2 ^ 52 <= m') by (apply Hn; lia).
    change (2 ^ 52) with 4503599627370496 in M.
    change (2 ^ 53) with 9007199254740992 in U53.
    nia.
Qed.

(** ** Rounding keeps every float bound *)

Lemma sval_bound (f : spec_float) (m2 : positive) (e2 : Z) :
  valid_binary f = true -> 971 < e2 -> 2 ^ 52 <= Zpos m2 ->
  (sval f < F2Q (Zpos m2) e2)%Q.
Proof.
  intros V He Hm. destruct f as [s|s| |s m e]; cbn [sval]; try apply F2Q_pos.
  cbn [valid_binary] in V. apply bounded_canonical in V. destruct V as (Be & D & _).
  pose proof (digits2_pos_bounds m) as [_ U].
  assert (U53 : Zpos m < 2 ^ 53).
  { assert (2 ^ Zpos (digits2_pos m) <= 2 ^ 53) by (apply Z.pow_le_mono_r; lia). lia. }
  destruct s; cbn [cond_Zopp Z.opp].
  - pose proof (F2Q_neg m e). pose proof (F2Q_pos m2 e2). gen_F2Q; lra.
  - apply (F2Q_lt_digits _ _ _ _ 53 52); lia.
Qed.

(** The rounded magnitude is faithful. *)
Lemma faithful (m' e' m1 : Z) (st : bool) (v : Q) (f : spec_float) :
  inb m' e' st v -> (m1 = m' \/ (m1 = m' + 1 /\ st = true)) ->
  0 <= m' -> -1074 <= e' -> (-1074 < e' -> 2 ^ 52 <= m') ->
  valid_binary f = true -> sfinite f = true ->
  ((sval f <= v)%Q -> (sval f <= F2Q m1 e')%Q) /\
  ((v <= sval f)%Q -> (F2Q m1 e' <= sval f)%Q).
Proof.
  intros (I1 & I2 & I3) C Hm He Hn V F.
  assert (P0 : (0 <= F2Q m' e')%Q).
  { unfold F2Q. pose proof (pow2_pos e').
    assert (0 <= inject_Z m')%Q by (change 0%Q with (inject_Z 0); rewrite <- Zle_Qle; lia).
    nra. }
  assert (M1 : (F2Q m' e' <= F2Q m1 e')%Q) by (apply F2Q_le_same; lia).
  assert (M2 : (F2Q m1 e' <= F2Q (m' + 1) e')%Q) by (apply F2Q_le_same; lia).
  assert (G : forall mf ef, f = S754_finite false mf ef ->
              (F2Q m' e' < F2Q (Zpos mf) ef)%Q ->
              (F2Q (Zpos mf) ef < F2Q (m' + 1) e')%Q -> False).
  { intros mf ef -> A B. cbn [valid_binary] in V. exact (grid m' e' mf ef V Hm He Hn A B). }
  split; intros H.
  - destruct (Qlt_le_dec (F2Q m1 e') (sval f)) as [L|L]; [exfalso | exact L].
    destruct f as [s|s| |s mf ef]; try discriminate F; cbn [sval] in *.
    + gen_F2Q; lra.
    + destruct s; cbn [cond_Zopp Z.opp] in *.
      * pose proof (F2Q_neg mf ef). gen_F2Q; lra.
      * apply (G mf ef eq_refl); gen_F2Q; lra.
  - destruct (Qlt_le_dec (sval f) (F2Q m1 e')) as [L|L]; [exfalso | exact L].
    destruct C as [->|[-> St]]; [gen_F2Q; lra|].
    specialize (I3 St).
    destruct f as [s|s| |s mf ef]; try discriminate F; cbn [sval] in *.
    + gen_F2Q; lra.
    + destruct s; cbn [cond_Zopp Z.opp] in *.
      * pose proof (F2Q_neg mf ef). gen_F2Q; lra.
      * apply (G mf ef eq_refl); gen_F2Q; lra.
Qed.

Lemma SFleb_zero_r (f : spec_float) (s : bool) :
  valid_binary f = true -> sfinite f = true ->
  (sval f <= 0)%Q -> SFleb f (S754_zero s) = true.
Proof.
  intros V F H. apply SFleb_val; try assumption; reflexivity.
Qed.

Lemma SFleb_zero_l (f : spec_float) (s : bool) :
  valid_binary f = true -> sfinite f = true ->
  (0 <= sval f)%Q -> SFleb (S754_zero s) f = true.
Proof.
  intros V F H. apply SFleb_val; try assumption; reflexivity.
Qed.

(** [binary_round_aux] rounds: its result is a rounding of the value it is
    given through a mantissa, an exponent and a location. *)
Theorem round_aux_rounds (s : bool) (mx ex : Z) (lx : location) (v : Q) :
  0 <= mx ->
  ex <= fexp prec emax (Zdigits2 mx + ex) ->
  inb mx ex (strict_loc lx) v ->
  valid_binary (binary_round_aux prec emax s mx ex lx) = true ->
  rounds_to (binary_round_aux prec emax s mx ex lx) (if s then - v else v).
Proof.
  intros Hm Hn Hv Vr.
  destruct (binary_round_aux_spec s mx ex lx v Hm Hn Hv)
    as (m' & e' & m1 & st & I & C & B & E & N & R).
  assert (FA : forall f, valid_binary f = true -> sfinite f = true ->
               ((sval f <= v)%Q -> (sval f <= F2Q m1 e')%Q) /\
               ((v <= sval f)%Q -> (F2Q m1 e' <= sval f)%Q)).
  { intros f V F. apply (faithful m' e' m1 st v f); try assumption; lia. }
  assert (FO : forall f, valid_binary f = true -> sfinite f = true ->
               ((sval f <= - v)%Q -> (sval f <= - F2Q m1 e')%Q) /\
               ((- v <= sval f)%Q -> (- F2Q m1 e' <= sval f)%Q)).
  { intros f V F.
    assert (V' : valid_binary (SFopp f) = true) by (rewrite valid_opp; exact V).
    assert (F' : sfinite (SFopp f) = true) by (rewrite sfinite_opp; exact F).
    destruct (FA (SFopp f) V' F') as [A1 A2]. rewrite sval_opp in A1, A2.
    split; intros H; [assert (X : (v <= - sval f)%Q) by lra; specialize (A2 X)
                     | assert (X : (- sval f <= v)%Q) by lra; specialize (A1 X)];
      gen_F2Q; lra. }
  destruct R as [[Z0 Er]|(m2 & e2 & Ev & [[Le Er]|(Gt & M2 & Er)])];
    rewrite Er in *; clear Er.
  - (* zero *)
    subst m1. assert (Ez : (F2Q 0 e' == 0)%Q) by (unfold F2Q; ring).
    split; intros f V F H.
    + apply SFleb_zero_r; try assumption.
      destruct s; [apply (FO f V F) in H | apply (FA f V F) in H]; rewrite Ez in H; lra.
    + apply SFleb_zero_l; try assumption.
      destruct s; [apply (FO f V F) in H | apply (FA f V F) in H]; rewrite Ez in H; lra.
  - (* finite *)
    split; intros f V F H.
    + apply SFleb_val; try assumption; try reflexivity. cbn [sval].
      destruct s; cbn [cond_Zopp Z.opp].
      * apply (FO f V F) in H. change (Zneg m2) with (- Zpos m2).
        rewrite F2Q_opp, Ev. exact H.
      * apply (FA f V F) in H. rewrite Ev. exact H.
    + apply SFleb_val; try assumption; try reflexivity. cbn [sval].
      destruct s; cbn [cond_Zopp Z.opp].
      * apply (FO f V F) in H. change (Zneg m2) with (- Zpos m2).
        rewrite F2Q_opp, Ev. exact H.
      * apply (FA f V F) in H. rewrite Ev. exact H.
  - (* overflow *)
    split; intros f V F H.
    + destruct s.
      * exfalso. apply (FO f V F) in H.
        assert (V' : valid_binary (SFopp f) = true) by (rewrite valid_opp; exact V).
        pose proof (sval_bound (SFopp f) m2 e2 V' Gt M2) as Bd.
        rewrite sval_opp, Ev in Bd. gen_F2Q; lra.
      * destruct f as [sf|sf| |sf mf ef]; try discriminate F; reflexivity.
    + destruct s.
      * destruct f as [sf|sf| |sf mf ef]; try discriminate F; reflexivity.
      * exfalso. apply (FA f V F) in H.
        pose proof (sval_bound f m2 e2 V Gt M2) as Bd.
        rewrite Ev in Bd. gen_F2Q; lra.
Qed.

(** ** The operations *)

Lemma rounds_to_ext (r : spec_float) (v v' : Q) :
  (v == v')%Q -> rounds_to r v -> rounds_to r v'.
Proof.
  intros E [L U]. split; intros f V F H; [apply L | apply U]; try assumption;
    rewrite E; exact H.
Qed.

Lemma rounds_to_self (r : spec_float) :
  valid_binary r = true -> sfinite r = true -> rounds_to r (sval r).
Proof.
  intros V F. split; intros f Vf Ff H; apply SFleb_val; assumption.
Qed.

Lemma rounds_to_zero (s : bool) (v : Q) : (v == 0)%Q -> rounds_to (S754_zero s) v.
Proof.
  intros E. apply (rounds_to_ext _ (sval (S754_zero s))); [symmetry; exact E|].
  apply rounds_to_self; reflexivity.
Qed.

Lemma Zdigits2_lower (m k : Z) : 0 <= k -> 2 ^ k <= m -> k + 1 <= Zdigits2 m.
Proof.
  intros Hk H.
  assert (Hm : 0 < m) by (pose proof (Z.pow_pos_nonneg 2 k); lia).
  pose proof (Zdigits2_bounds m Hm) as [_ U]. pose proof (Zdigits2_nonneg m).
  destruct (Z_lt_le_dec k (Zdigits2 m)) as [L|G]; [lia|exfalso].
  assert (2 ^ Zdigits2 m <= 2 ^ k) by (apply Z.pow_le_mono_r; lia). lia.
Qed.

Lemma F2Q_mul (m1 e1 m2 e2 : Z) :
  (F2Q (m1 * m2) (e1 + e2) == F2Q m1 e1 * F2Q m2 e2)%Q.
Proof. unfold F2Q. rewrite inject_Z_mult, pow2_add. ring. Qed.

Lemma inb_exact (m e : Z) (v : Q) : (v == F2Q m e)%Q -> inb m e false v.
Proof.
  intros E. unfold inb. rewrite E. split; [apply Qle_refl|].
  split; [apply F2Q_lt_same; lia | discriminate].
Qed.

(** The product of two finite doubles is a rounding of the product of their
    values. *)
Theorem SFmul_rounds (x y : spec_float) :
  valid_binary x = true -> valid_binary y = true ->
  sfinite x = true -> sfinite y = true ->
  valid_binary (SFmul prec emax x y) = true ->
  rounds_to (SFmul prec emax x y) (sval x * sval y).
Proof.
  intros Vx Vy Fx Fy Vr.
  destruct x as [sx|sx| |sx mx ex]; try discriminate Fx;
  destruct y as [sy|sy| |sy my ey]; try discriminate Fy;
  cbn [SFmul sval] in *; try (apply rounds_to_zero; ring).
  cbn [valid_binary] in Vx, Vy.
  pose proof (bounded_canonical _ _ Vx) as (Bx & Dx & Nx).
  pose proof (bounded_canonical _ _ Vy) as (By & Dy & Ny).
  pose proof (digits2_pos_bounds mx) as [Lx Ux].
  pose proof (digits2_pos_bounds my) as [Ly Uy].
  set (dx := Zpos (digits2_pos mx)) in *. set (dy := Zpos (digits2_pos my)) in *.
  assert (Hdx : 1 <= dx) by (unfold dx; lia). assert (Hdy : 1 <= dy) by (unfold dy; lia).
  assert (Hd : dx + dy - 1 <= Zdigits2 (Zpos (mx * my))).
  { replace (dx + dy - 1) with (dx - 1 + (dy - 1) + 1) by ring.
    apply Zdigits2_lower; [lia|]. rewrite Z.pow_add_r by lia.
    rewrite Pos2Z.inj_mul. apply Z.mul_le_mono_nonneg; try lia;
      apply Z.pow_nonneg; lia. }
  assert (Hn : ex + ey <= fexp prec emax (Zdigits2 (Zpos (mx * my)) + (ex + ey))).
  { unfold fexp, emin, prec, emax. lia. }
  assert (Hv : inb (Zpos (mx * my)) (ex + ey) (strict_loc loc_Exact)
                   (F2Q (Zpos mx) ex * F2Q (Zpos my) ey)).
  { apply inb_exact. rewrite Pos2Z.inj_mul. symmetry. apply F2Q_mul. }
  assert (H0 : 0 <= Zpos (mx * my)) by lia.
  pose proof (round_aux_rounds (xorb sx sy) _ _ _ _ H0 Hn Hv Vr) as R.
  refine (rounds_to_ext _ _ _ _ R).
  destruct sx, sy; cbn [xorb cond_Zopp Z.opp];
    change (Zneg mx) with (- Zpos mx); change (Zneg my) with (- Zpos my);
    rewrite ?F2Q_opp; ring.
Qed.

Lemma iter_xO (m p : positive) : Zpos (Pos.iter xO m p) = Zpos m * 2 ^ Zpos p.
Proof.
  induction p as [|p IH] using Pos.peano_ind.
  - cbn. lia.
  - rewrite Pos.iter_succ, Pos2Z.inj_succ, Z.pow_succ_r by lia.
    rewrite Pos2Z.inj_xO, IH. ring.
Qed.

Lemma shl_align_spec (mx : positive) (ex ex' : Z) :
  snd (shl_align mx ex ex') = Z.min ex ex' /\
  Zpos (fst (shl_align mx ex ex')) = Zpos mx * 2 ^ (ex - Z.min ex ex').
Proof.
  unfold shl_align. destruct (ex' - ex) as [|d|d] eqn:E; cbn [fst snd].
  - replace (Z.min ex ex') with ex by lia. rewrite Z.sub_diag. split; [reflexivity | cbn; lia].
  - replace (Z.min ex ex') with ex by lia. rewrite Z.sub_diag. split; [reflexivity | cbn; lia].
  - replace (Z.min ex ex') with ex' by lia. split; [reflexivity|].
    rewrite iter_xO. f_equal. f_equal. lia.
Qed.

Lemma F2Q_align (m e e' : Z) : e' <= e -> (F2Q (m * 2 ^ (e - e')) e' == F2Q m e)%Q.
Proof.
  intros H. rewrite F2Q_shift by lia. replace (e' + (e - e')) with e by ring. reflexivity.
Qed.

Lemma Zdigits2_shift (m : positive) (k : Z) :
  0 <= k -> Zdigits2 (Zpos m * 2 ^ k) = Zpos (digits2_pos m) + k.
Proof.
  intros Hk. pose proof (digits2_pos_bounds m) as [L U].
  apply Zdigits2_unique; [lia|].
  replace (Zpos (digits2_pos m) + k - 1) with (Zpos (digits2_pos m) - 1 + k) by ring.
  rewrite !Z.pow_add_r by lia.
  pose proof (Z.pow_pos_nonneg 2 k). nia.
Qed.

(** [binary_round] and [binary_normalize] round the value of their mantissa
    and exponent. *)
Theorem binary_round_rounds (s : bool) (m : positive) (e : Z) :
  valid_binary (binary_round prec emax s m e) = true ->
  rounds_to (binary_round prec emax s m e) (F2Q (cond_Zopp s (Zpos m)) e).
Proof.
  unfold binary_round.
  pose proof (shl_align_spec m e (fexp prec emax (Zpos (digits2_pos m) + e))) as [Se Sm].
  destruct (shl_align m e (fexp prec emax (Zpos (digits2_pos m) + e))) as [mz ez].
  cbn [fst snd] in Se, Sm. intros Vr.
  assert (Le : ez <= e) by lia.
  assert (Hn : ez <= fexp prec emax (Zdigits2 (Zpos mz) + ez)).
  { rewrite Sm, Zdigits2_shift by lia.
    replace (Zpos (digits2_pos m) + (e - Z.min e (fexp prec emax (Zpos (digits2_pos m) + e))) + ez)
      with (Zpos (digits2_pos m) + e) by lia.
    lia. }
  assert (Hv : inb (Zpos mz) ez (strict_loc loc_Exact) (F2Q (Zpos m) e)).
  { apply inb_exact. rewrite Sm, <- Se. symmetry. apply F2Q_align. lia. }
  assert (H0 : 0 <= Zpos mz) by lia.
  pose proof (round_aux_rounds s _ _ _ _ H0 Hn Hv Vr) as R.
  refine (rounds_to_ext _ _ _ _ R).
  destruct s; cbn [cond_Zopp Z.opp]; [|reflexivity].
  change (Zneg m) with (- Zpos m). rewrite F2Q_opp. reflexivity.
Qed.

Theorem binary_normalize_rounds (z e : Z) :
  valid_binary (binary_normalize prec emax z e false) = true ->
  rounds_to (binary_normalize prec emax z e false) (F2Q z e).
Proof.
  destruct z as [|p|p]; cbn [binary_normalize]; intros V.
  - apply rounds_to_zero. unfold F2Q. ring.
  - exact (binary_round_rounds false p e V).
  - exact (binary_round_rounds true p e V).
Qed.

Lemma F2Q_add (a b e : Z) : (F2Q (a + b) e == F2Q a e + F2Q b e)%Q.
Proof. unfold F2Q. rewrite inject_Z_plus. ring. Qed.

Lemma F2Q_sub (a b e : Z) : (F2Q (a - b) e == F2Q a e - F2Q b e)%Q.
Proof. unfold F2Q, Z.sub. rewrite inject_Z_plus, inject_Z_opp. ring. Qed.

(** An aligned signed mantissa has the value of the float. *)
Lemma aligned_val (s : bool) (m : positive) (e ez : Z) :
  ez <= e ->
  (F2Q (cond_Zopp s (Zpos (fst (shl_align m e ez)))) ez
   == F2Q (cond_Zopp s (Zpos m)) e)%Q.
Proof.
  intros H. destruct (shl_align_spec m e ez) as [_ Sm].
  replace (Z.min e ez) with ez in Sm by lia.
  destruct s; cbn [cond_Zopp];
    rewrite ?F2Q_opp, Sm; [apply Qopp_comp|]; apply F2Q_align, H.
Qed.

(** The sum and the difference of two finite doubles are roundings of the
    sum and the difference of their values. *)
Theorem SFadd_rounds (x y : spec_float) :
  valid_binary x = true -> valid_binary y = true ->
  sfinite x = true -> sfinite y = true ->
  valid_binary (SFadd prec emax x y) = true ->
  rounds_to (SFadd prec emax x y) (sval x + sval y).
Proof.
  intros Vx Vy Fx Fy Vr.
  destruct x as [sx|sx| |sx mx ex]; try discriminate Fx;
  destruct y as [sy|sy| |sy my ey]; try discriminate Fy.
  - cbn [SFadd]. destruct sx, sy; apply rounds_to_zero; cbn [sval]; ring.
  - cbn [SFadd]. refine (rounds_to_ext _ _ _ _ (rounds_to_self _ Vy Fy)).
    cbn [sval]. ring.
  - cbn [SFadd]. refine (rounds_to_ext _ _ _ _ (rounds_to_self _ Vx Fx)).
    cbn [sval]. ring.
  - cbn [SFadd] in *.
    refine (rounds_to_ext _ _ _ _ (binary_normalize_rounds _ _ Vr)).
    rewrite F2Q_add, !aligned_val by lia. reflexivity.
Qed.

Theorem SFsub_rounds (x y : spec_float) :
  valid_binary x = true -> valid_binary y = true ->
  sfinite x = true -> sfinite y = true ->
  valid_binary (SFsub prec emax x y) = true ->
  rounds_to (SFsub prec emax x y) (sval x - sval y).
Proof.
  intros Vx Vy Fx Fy Vr.
  destruct x as [sx|sx| |sx mx ex]; try discriminate Fx;
  destruct y as [sy|sy| |sy my ey]; try discriminate Fy.
  - cbn [SFsub]. destruct sx, sy; apply rounds_to_zero; cbn [sval]; ring.
  - cbn [SFsub] in *.
    refine (rounds_to_ext _ _ _ _ (rounds_to_self (S754_finite (negb sy) my ey) Vr eq_refl)).
    pose proof (sval_opp (S754_finite sy my ey)) as E. cbn [SFopp] in E. rewrite E.
    cbn [sval]. ring.
  - cbn [SFsub]. refine (rounds_to_ext _ _ _ _ (rounds_to_self _ Vx Fx)).
    cbn [sval]. ring.
  - cbn [SFsub] in *.
    refine (rounds_to_ext _ _ _ _ (binary_normalize_rounds _ _ Vr)).
    rewrite F2Q_sub, !aligned_val by lia. reflexivity.
Qed.

(** ** Division *)

Lemma strict_new_location (n k : Z) : strict_loc (new_location n k) = negb (k =? 0).
Proof.
  unfold new_location, new_location_even, new_location_odd.
  destruct (Z.even n), (k =? 0); reflexivity.
Qed.

(** The integer division at the heart of [SFdiv]: quotient, exponent and
    location bracket the exact quotient, at an exponent that is canonical or
    below. *)
Lemma SFdiv_core_spec (m1 m2 : positive) (e1 e2 : Z) :
  let r := SFdiv_core_binary prec emax (Zpos m1) e1 (Zpos m2) e2 in
  0 <= fst (fst r) /\
  snd (fst r) <= fexp prec emax (Zdigits2 (fst (fst r)) + snd (fst r)) /\
  inb (fst (fst r)) (snd (fst r)) (strict_loc (snd r))
      (F2Q (Zpos m1) e1 / F2Q (Zpos m2) e2).
Proof.
  unfold SFdiv_core_binary.
  set (d1 := Zdigits2 (Zpos m1)). set (d2 := Zdigits2 (Zpos m2)).
  set (e' := Z.min (fexp prec emax (d1 + e1 - (d2 + e2))) (e1 - e2)).
  set (s := e1 - e2 - e').
  assert (Hs : 0 <= s) by (unfold s, e'; lia).
  set (m' := match s with Zpos _ => Z.shiftl (Zpos m1) s | 0 => Zpos m1 | Zneg _ => 0 end).
  assert (Em : m' = Zpos m1 * 2 ^ s).
  { unfold m'. destruct s as [|p|p]; [cbn; lia | apply Z.shiftl_mul_pow2; lia | lia]. }
  pose proof (Z.div_eucl_eq m' (Zpos m2) ltac:(lia)) as Eq.
  pose proof (Z.mod_pos_bound m' (Zpos m2) ltac:(lia)) as Br.
  unfold Z.modulo in Br.
  destruct (Z.div_eucl m' (Zpos m2)) as [q r]. cbn [fst snd] in *. cbn zeta.
  pose proof (Z.pow_pos_nonneg 2 s ltac:(lia) Hs) as Ps.
  assert (Hq : 0 <= q) by nia.
  pose proof (digits2_pos_bounds m1) as [L1 U1]. fold (Zdigits2 (Zpos m1)) in L1, U1.
  pose proof (digits2_pos_bounds m2) as [L2 U2]. fold (Zdigits2 (Zpos m2)) in L2, U2.
  fold d1 in L1, U1. fold d2 in L2, U2.
  assert (Hd1 : 1 <= d1) by (unfold d1; cbn; lia).
  assert (Hd2 : 1 <= d2) by (unfold d2; cbn; lia).
  split; [exact Hq|]. split.
  - unfold fexp, emin, prec, emax in *.
    destruct (Z_le_gt_dec e' (-1074)) as [Le|Gt]; [lia|].
    assert (S53 : 53 - d1 + d2 <= s) by (unfold s, e'; lia).
    assert (Q52 : 2 ^ 52 <= q).
    { assert (P1 : 2 ^ (d2 + 52) <= 2 ^ (d1 - 1 + s)) by (apply Z.pow_le_mono_r; lia).
      rewrite !Z.pow_add_r in P1 by lia.
      assert (M : Zpos m2 * 2 ^ 52 <= m') by nia.
      destruct (Z_le_gt_dec (2 ^ 52) q) as [A|B]; [exact A|exfalso]. nia. }
    pose proof (Zdigits2_lower q 52 ltac:(lia) Q52). lia.
  - pose proof (F2Q_pos m2 e2) as P2.
    assert (Ev : (F2Q m' (e' + e2) == F2Q (Zpos m1) e1)%Q).
    { rewrite Em, F2Q_shift by lia. replace (e' + e2 + s) with e1 by (unfold s; ring).
      reflexivity. }
    rewrite strict_new_location. unfold inb. repeat split.
    + apply Qle_shift_div_l; [exact P2|].
      rewrite <- F2Q_mul, <- Ev. apply F2Q_le_same. nia.
    + apply Qlt_shift_div_r; [exact P2|].
      rewrite <- F2Q_mul, <- Ev. apply F2Q_lt_same. nia.
    + intros Hr. apply negb_true_iff, Z.eqb_neq in Hr.
      apply Qlt_shift_div_l; [exact P2|].
      rewrite <- F2Q_mul, <- Ev. apply F2Q_lt_same. nia.
Qed.

(** The quotient of two finite doubles, the divisor not zero, is a rounding
    of the quotient of their values. *)
Theorem SFdiv_rounds (x y : spec_float) :
  valid_binary x = true -> valid_binary y = true ->
  sfinite x = true -> sfinite y = true ->
  ~ (sval y == 0)%Q ->
  valid_binary (SFdiv prec emax x y) = true ->
  rounds_to (SFdiv prec emax x y) (sval x / sval y).
Proof.
  intros Vx Vy Fx Fy Ny Vr.
  destruct y as [sy|sy| |sy my ey]; try discriminate Fy;
    [exfalso; apply Ny; reflexivity|].
  destruct x as [sx|sx| |sx mx ex]; try discriminate Fx.
  - cbn [SFdiv]. apply rounds_to_zero. cbn [sval]. unfold Qdiv. ring.
  - cbn [SFdiv] in *.
    pose proof (SFdiv_core_spec mx my ex ey) as (H0 & Hn & Hv). cbn zeta in *.
    destruct (SFdiv_core_binary prec emax (Zpos mx) ex (Zpos my) ey) as [[mz ez] lz].
    cbn [fst snd] in *.
    pose proof (round_aux_rounds (xorb sx sy) _ _ _ _ H0 Hn Hv Vr) as R.
    refine (rounds_to_ext _ _ _ _ R).
    pose proof (F2Q_pos my ey) as P2.
    cbn [sval].
    destruct sx, sy; cbn [xorb cond_Zopp Z.opp];
      change (Zneg mx) with (- Zpos mx); change (Zneg my) with (- Zpos my);
      rewrite ?F2Q_opp; field; gen_F2Q; lra.
Qed.

(** ** Validity of a rounded result, and the doubles of a given value *)

Lemma bounded_intro (p : positive) (e : Z) :
  -1074 <= e <= 971 -> Zpos p < 2 ^ 53 -> (-1074 < e -> 2 ^ 52 <= Zpos p) ->
  bounded prec emax p e = true.
Proof.
  intros He Hp Hn. unfold bounded, canonical_mantissa, fexp, emin, prec, emax.
  apply andb_true_intro. split; [|apply Z.leb_le; lia].
  pose proof (digits2_pos_bounds p) as [L U].
  assert (D : Zpos (digits2_pos p) <= 53).
  { destruct (Z_le_gt_dec (Zpos (digits2_pos p)) 53) as [A|B]; [exact A|exfalso].
    assert (2 ^ 53 <= 2 ^ (Zpos (digits2_pos p) - 1)) by (apply Z.pow_le_mono_r; lia). lia. }
  assert (N : -1074 < e -> Zpos (digits2_pos p) = 53).
  { intros G. specialize (Hn G).
    destruct (Z_le_gt_dec 53 (Zpos (digits2_pos p))) as [A|B]; [lia|exfalso].
    assert (2 ^ Zpos (digits2_pos p) <= 2 ^ 52) by (apply Z.pow_le_mono_r; lia). lia. }
  apply Z.eqb_eq. lia.
Qed.

(** [binary_round_aux] returns a valid float. *)
Theorem round_aux_valid (s : bool) (mx ex : Z) (lx : location) :
  0 <= mx -> ex <= fexp prec emax (Zdigits2 mx + ex) ->
  valid_binary (binary_round_aux prec emax s mx ex lx) = true.
Proof.
  intros Hm Hn.
  assert (Hv : inb mx ex (strict_loc lx) (F2Q (2 * mx + 1) (ex - 1))).
  { assert (E1 : (F2Q mx ex == F2Q (2 * mx) (ex - 1))%Q).
    { rewrite F2Q_double. replace (ex - 1 + 1) with ex by ring. reflexivity. }
    assert (E2 : (F2Q (mx + 1) ex == F2Q (2 * (mx + 1)) (ex - 1))%Q).
    { rewrite F2Q_double. replace (ex - 1 + 1) with ex by ring. reflexivity. }
    pose proof (F2Q_lt_same (2 * mx) (2 * mx + 1) (ex - 1) ltac:(lia)).
    pose proof (F2Q_lt_same (2 * mx + 1) (2 * (mx + 1)) (ex - 1) ltac:(lia)).
    unfold inb. rewrite E1, E2. repeat split; try assumption; try (intros _; assumption).
    apply Qlt_le_weak. assumption. }
  destruct (shr_fexp_stage mx ex lx _ Hm Hn Hv) as (_ & B1 & E1 & N1).
  unfold binary_round_aux.
  destruct (shr_fexp prec emax mx ex lx) as [mrs' e']. cbn [fst snd] in *.
  set (m1 := round_nearest_even (shr_m mrs') (loc_of_shr_record mrs')).
  assert (C : m1 = shr_m mrs' \/ (m1 = shr_m mrs' + 1 /\ shr_r mrs' || shr_s mrs' = true))
    by apply round_nearest_even_cases.
  assert (R : 0 <= m1 <= 2 ^ 53) by lia.
  destruct (shr_fexp_second m1 e' R E1) as [(L & M2 & X2)|(L & M2 & X2)];
    destruct (shr_fexp prec emax m1 e' loc_Exact) as [mrs'' e''];
    cbn [fst snd] in M2, X2; subst e''; rewrite M2.
  - destruct m1 as [|p|p] eqn:Em; [reflexivity | | lia].
    change (emax - prec) with 971.
    destruct (Z.leb_spec e' 971) as [Le|Gt]; [|reflexivity].
    cbn [valid_binary]. apply bounded_intro; lia.
  - change (2 ^ 52) with (Zpos 4503599627370496).
    change (emax - prec) with 971.
    destruct (Z.leb_spec (e' + 1) 971) as [Le|Gt]; [|reflexivity].
    cbn [valid_binary]. apply bounded_intro; lia.
Qed.

Lemma binary_round_valid (s : bool) (m : positive) (e : Z) :
  valid_binary (binary_round prec emax s m e) = true.
Proof.
  unfold binary_round.
  pose proof (shl_align_spec m e (fexp prec emax (Zpos (digits2_pos m) + e))) as [Se Sm].
  destruct (shl_align m e (fexp prec emax (Zpos (digits2_pos m) + e))) as [mz ez].
  cbn [fst snd] in Se, Sm.
  apply round_aux_valid; [lia|].
  rewrite Sm, Zdigits2_shift by lia.
  replace (Zpos (digits2_pos m) + (e - Z.min e (fexp prec emax (Zpos (digits2_pos m) + e))) + ez)
    with (Zpos (digits2_pos m) + e) by lia.
  lia.
Qed.

Lemma binary_normalize_valid (z e : Z) :
  valid_binary (binary_normalize prec emax z e false) = true.
Proof.
  destruct z as [|p|p]; cbn [binary_normalize];
    [reflexivity | apply binary_round_valid | apply binary_round_valid].
Qed.

(** A dyadic number of at most 53 bits, in the normal range, is a double. *)
Lemma dyadic_is_double (s : bool) (m : positive) (e : Z) :
  Zpos m < 2 ^ 53 -> -1022 <= e <= 971 ->
  exists f, valid_binary f = true /\ sfinite f = true /\
            (sval f == F2Q (cond_Zopp s (Zpos m)) e)%Q.
Proof.
  intros Hm He.
  pose proof (digits2_pos_bounds m) as [L U].
  set (d := Zpos (digits2_pos m)) in *.
  assert (D1 : 1 <= d) by (unfold d; lia).
  assert (D : d <= 53).
  { destruct (Z_le_gt_dec d 53) as [A|B]; [exact A|exfalso].
    assert (2 ^ 53 <= 2 ^ (d - 1)) by (apply Z.pow_le_mono_r; lia). lia. }
  pose proof (shl_align_spec m e (e - (53 - d))) as [Se Sm].
  replace (Z.min e (e - (53 - d))) with (e - (53 - d)) in Se, Sm by lia.
  replace (e - (e - (53 - d))) with (53 - d) in Sm by ring.
  destruct (shl_align m e (e - (53 - d))) as [mz ez]. cbn [fst snd] in Se, Sm. subst ez.
  exists (S754_finite s mz (e - (53 - d))).
  assert (P1 : 2 ^ (d - 1) * 2 ^ (53 - d) = 2 ^ 52)
    by (rewrite <- Z.pow_add_r by lia; f_equal; ring).
  assert (P2 : 2 ^ d * 2 ^ (53 - d) = 2 ^ 53)
    by (rewrite <- Z.pow_add_r by lia; f_equal; ring).
  pose proof (Z.pow_pos_nonneg 2 (53 - d) ltac:(lia) ltac:(lia)) as Pk.
  split; [|split; [reflexivity|]].
  - cbn [valid_binary]. apply bounded_intro; [lia | nia | intros _; nia].
  - cbn [sval]. destruct s; cbn [cond_Zopp Z.opp].
    + change (Zneg mz) with (- Zpos mz). change (Zneg m) with (- Zpos m).
      rewrite !F2Q_opp, Sm, F2Q_shift by lia.
      replace (e - (53 - d) + (53 - d)) with e by ring. reflexivity.
    + rewrite Sm, F2Q_shift by lia.
      replace (e - (53 - d) + (53 - d)) with e by ring. reflexivity.
Qed.

(** Rounding a value that is a double gives that value. *)
Lemma rounds_to_exact (r f : spec_float) (v : Q) :
  valid_binary r = true -> rounds_to r v ->
  valid_binary f = true -> sfinite f = true -> (sval f == v)%Q ->
  sfinite r = true /\ (sval r == v)%Q.
Proof.
  intros Vr [L U] Vf Ff E.
  assert (A : SFleb f r = true) by (apply L; try assumption; rewrite E; apply Qle_refl).
  assert (B : SFleb r f = true) by (apply U; try assumption; rewrite E; apply Qle_refl).
  assert (Fr : sfinite r = true).
  { destruct r as [?|[|]| |? ? ?]; try reflexivity;
      destruct f as [?|[|]| |[|] ? ?]; cbn in *; congruence. }
  split; [exact Fr|].
  apply (SFleb_val f r Vf Vr Ff Fr) in A. apply (SFleb_val r f Vr Vf Fr Ff) in B.
  rewrite <- E. apply Qle_antisym; assumption.
Qed.

Lemma F2Q_zero_exp (z : Z) : (F2Q z 0 == inject_Z z)%Q.
Proof. unfold F2Q. change (2 ^ 0)%Q with 1%Q. ring. Qed.

(** An integer of at most 53 bits is converted exactly. *)
Theorem binary_normalize_int (z : Z) :
  - 2 ^ 53 < z < 2 ^ 53 ->
  sfinite (binary_normalize prec emax z 0 false) = true /\
  (sval (binary_normalize prec emax z 0 false) == inject_Z z)%Q.
Proof.
  intros Hz.
  pose proof (binary_normalize_valid z 0) as V.
  pose proof (binary_normalize_rounds z 0 V) as R.
  destruct z as [|p|p].
  - split; [reflexivity | cbn; reflexivity].
  - destruct (dyadic_is_double false p 0 ltac:(lia) ltac:(lia)) as (f & Vf & Ff & Ef).
    cbn [cond_Zopp] in Ef.
    destruct (rounds_to_exact _ f _ V R Vf Ff Ef) as [F E].
    split; [exact F|]. rewrite E. apply F2Q_zero_exp.
  - destruct (dyadic_is_double true p 0 ltac:(lia) ltac:(lia)) as (f & Vf & Ff & Ef).
    cbn [cond_Zopp Z.opp] in Ef.
    destruct (rounds_to_exact _ f _ V R Vf Ff Ef) as [F E].
    split; [exact F|]. rewrite E. apply F2Q_zero_exp.
Qed.

(** ** binary64 values of primitive floats *)

Lemma bracket (r : spec_float) (v lo hi : Q) :
  valid_binary r = true -> rounds_to r v ->
  repr lo -> repr hi -> (lo <= v <= hi)%Q ->
  sfinite r = true /\ (lo <= sval r <= hi)%Q.
Proof.
  intros Vr [L U] (fl & Fl & El) (fh & Fh & Eh) [Hl Hh].
  unfold ffin, fval in *.
  pose proof (Prim2SF_valid fl) as Vl. pose proof (Prim2SF_valid fh) as Vh.
  assert (A : SFleb (Prim2SF fl) r = true) by (apply L; try assumption; rewrite El; exact Hl).
  assert (B : SFleb r (Prim2SF fh) = true) by (apply U; try assumption; rewrite Eh; exact Hh).
  assert (Fr : sfinite r = true).
  { destruct r as [s|[|]| |s m e]; try reflexivity.
    - destruct (Prim2SF fl) as [?|[|]| |[|] ? ?]; cbn in *; congruence.
    - destruct (Prim2SF fh) as [?|[|]| |[|] ? ?]; cbn in *; congruence.
    - destruct (Prim2SF fl) as [?|[|]| |[|] ? ?]; cbn in *; congruence. }
  split; [exact Fr|]. split.
  - rewrite <- El. apply SFleb_val; assumption.
  - rewrite <- Eh. apply SFleb_val; assumption.
Qed.

(** The result of an operation on finite doubles, for an exact result
    between two doubles. *)
Section Intervals.
Variables (x y : float) (lo hi : Q).
Hypothesis (Fx : ffin x = true) (Fy : ffin y = true).
Hypothesis (Rl : repr lo) (Rh : repr hi).

Lemma mul_interval :
  (lo <= fval x * fval y <= hi)%Q -> inQ (x * y) lo hi.
Proof.
  intros H. unfold inQ, ffin, fval in *.
  pose proof (Prim2SF_valid (x * y)) as V. rewrite mul_spec in *.
  apply (bracket _ (sval (Prim2SF x) * sval (Prim2SF y))); try assumption.
  apply SFmul_rounds; try assumption; apply Prim2SF_valid.
Qed.

Lemma add_interval :
  (lo <= fval x + fval y <= hi)%Q -> inQ (x + y) lo hi.
Proof.
  intros H. unfold inQ, ffin, fval in *.
  pose proof (Prim2SF_valid (x + y)) as V. rewrite add_spec in *.
  apply (bracket _ (sval (Prim2SF x) + sval (Prim2SF y))); try assumption.
  apply SFadd_rounds; try assumption; apply Prim2SF_valid.
Qed.

Lemma sub_interval :
  (lo <= fval x - fval y <= hi)%Q -> inQ (x - y) lo hi.
Proof.
  intros H. unfold inQ, ffin, fval in *.
  pose proof (Prim2SF_valid (x - y)) as V. rewrite sub_spec in *.
  apply (bracket _ (sval (Prim2SF x) - sval (Prim2SF y))); try assumption.
  apply SFsub_rounds; try assumption; apply Prim2SF_valid.
Qed.

Lemma div_interval :
  ~ (fval y == 0)%Q ->
  (lo <= fval x / fval y <= hi)%Q -> inQ (x / y) lo hi.
Proof.
  intros N H. unfold inQ, ffin, fval in *.
  pose proof (Prim2SF_valid (x / y)) as V. rewrite div_spec in *.
  apply (bracket _ (sval (Prim2SF x) / sval (Prim2SF y))); try assumption.
  apply SFdiv_rounds; try assumption; apply Prim2SF_valid.
Qed.

End Intervals.

(** Python's comparisons on finite doubles are the comparisons of values. *)
Lemma leb_fval (x y : float) :
  ffin x = true -> ffin y = true -> ((x <=? y)%float = true <-> (fval x <= fval y)%Q).
Proof.
  intros Fx Fy. rewrite leb_spec. apply SFleb_val; try assumption; apply Prim2SF_valid.
Qed.

Lemma ltb_fval (x y : float) :
  ffin x = true -> ffin y = true -> ((x <? y)%float = true <-> (fval x < fval y)%Q).
Proof.
  intros Fx Fy. rewrite ltb_spec. apply SFltb_val; try assumption; apply Prim2SF_valid.
Qed.

Lemma is_nan_finite (x : float) : ffin x = true -> is_nan x = false.
Proof.
  intros Fx. unfold is_nan. rewrite eqb_spec. unfold SFeqb.
  rewrite (SFcompare_val _ _ (Prim2SF_valid x) (Prim2SF_valid x) Fx Fx).
  assert (E : (fval x ?= fval x)%Q = Eq) by (apply Qeq_alt; reflexivity).
  unfold fval in E. rewrite E. reflexivity.
Qed.

(** A value between two finite doubles is finite. *)
Lemma between_inQ (l x h : float) :
  ffin l = true -> ffin h = true ->
  between l x h = true -> inQ x (fval l) (fval h).
Proof.
  intros Fl Fh H. unfold between in H. apply andb_prop in H. destruct H as [A B].
  cbn [fle binary64] in A, B. rewrite leb_spec in A, B.
  unfold inQ, ffin, fval in *.
  pose proof (Prim2SF_valid l) as Vl. pose proof (Prim2SF_valid h) as Vh.
  pose proof (Prim2SF_valid x) as Vx.
  assert (Fx : sfinite (Prim2SF x) = true).
  { destruct (Prim2SF x) as [s|[|]| |s m e]; try reflexivity.
    - destruct (Prim2SF l) as [?|[|]| |[|] ? ?]; cbn in *; congruence.
    - destruct (Prim2SF h) as [?|[|]| |[|] ? ?]; cbn in *; congruence.
    - destruct (Prim2SF l) as [?|[|]| |[|] ? ?]; cbn in *; congruence. }
  split; [exact Fx|]. split; apply SFleb_val; assumption.
Qed.

Lemma inQ_weaken (x : float) (lo hi lo' hi' : Q) :
  inQ x lo hi -> (lo' <= lo)%Q -> (hi <= hi')%Q -> inQ x lo' hi'.
Proof. intros (F & A & B) Hl Hh. split; [exact F|]. split; lra. Qed.

Lemma pymax_inQ (a b : float) (lo hi : Q) :
  inQ a lo hi -> inQ b lo hi -> inQ (pymax a b) lo hi.
Proof. intros Ha Hb. unfold pymax. destruct (flt a b); assumption. Qed.

Lemma pymin_inQ (a b : float) (lo hi : Q) :
  inQ a lo hi -> inQ b lo hi -> inQ (pymin a b) lo hi.
Proof. intros Ha Hb. unfold pymin. destruct (flt b a); assumption. Qed.

(** [max(a, b)] of finite values is at least [b]. *)
Lemma pymax_lower (a b : float) :
  ffin a = true -> ffin b = true -> (fval b <= fval (pymax a b))%Q.
Proof.
  intros Fa Fb. unfold pymax. cbn [flt binary64].
  destruct (a <? b)%float eqn:E; [lra|].
  destruct (Qlt_le_dec (fval a) (fval b)) as [Lt|Le]; [|exact Le].
  apply (ltb_fval a b Fa Fb) in Lt. congruence.
Qed.

Lemma fle_zero (x : float) (hi : Q) : inQ x 0 hi -> fle (of_int 0) x = true.
Proof.
  intros (F & A & _). cbn [fle binary64 of_int].
  apply leb_fval; [reflexivity | exact F |]. exact A.
Qed.

(** ** Interval arithmetic on doubles *)

Lemma add_inQ (x y : float) (la ha lb hb lo hi : Q) :
  inQ x la ha -> inQ y lb hb -> repr lo -> repr hi ->
  (lo <= la + lb)%Q -> (ha + hb <= hi)%Q -> inQ (x + y) lo hi.
Proof.
  intros (Fx & X1 & X2) (Fy & Y1 & Y2) Rl Rh Hl Hh.
  apply add_interval; try assumption. split; lra.
Qed.

Lemma sub_inQ (x y : float) (la ha lb hb lo hi : Q) :
  inQ x la ha -> inQ y lb hb -> repr lo -> repr hi ->
  (lo <= la - hb)%Q -> (ha - lb <= hi)%Q -> inQ (x - y) lo hi.
Proof.
  intros (Fx & X1 & X2) (Fy & Y1 & Y2) Rl Rh Hl Hh.
  apply sub_interval; try assumption. split; lra.
Qed.

Lemma mul_inQ (x y : float) (la ha lb hb lo hi : Q) :
  inQ x la ha -> inQ y lb hb -> repr lo -> repr hi ->
  (0 <= la)%Q -> (0 <= lb)%Q ->
  (lo <= la * lb)%Q -> (ha * hb <= hi)%Q -> inQ (x * y) lo hi.
Proof.
  intros (Fx & X1 & X2) (Fy & Y1 & Y2) Rl Rh A B Hl Hh.
  apply mul_interval; try assumption. split; nra.
Qed.

Lemma div_inQ (x y : float) (la ha lb hb lo hi : Q) :
  inQ x la ha -> inQ y lb hb -> repr lo -> repr hi ->
  (0 <= la)%Q -> (0 < lb)%Q -> (0 <= lo)%Q ->
  (lo * hb <= la)%Q -> (ha <= hi * lb)%Q -> inQ (x / y) lo hi.
Proof.
  intros (Fx & X1 & X2) (Fy & Y1 & Y2) Rl Rh A B C Hl Hh.
  apply div_interval; try assumption; [intros E; rewrite E in Y1; lra|].
  assert (Py : (0 < fval y)%Q) by lra.
  split.
  - apply Qle_shift_div_l; [exact Py | nra].
  - apply Qle_shift_div_r; [exact Py | nra].
Qed.

(** Division by a double of known positive value, for a dividend of any sign. *)
Lemma div_inQ_const (x y : float) (la ha c lo hi : Q) :
  inQ x la ha -> inQ y c c -> repr lo -> repr hi ->
  (0 < c)%Q -> (lo * c <= la)%Q -> (ha <= hi * c)%Q -> inQ (x / y) lo hi.
Proof.
  intros (Fx & X1 & X2) (Fy & Y1 & Y2) Rl Rh C Hl Hh.
  assert (Ey : (fval y == c)%Q) by (apply Qle_antisym; assumption).
  apply div_interval; try assumption; [intros E; rewrite E in Ey; lra|].
  assert (Py : (0 < fval y)%Q) by lra.
  split.
  - apply Qle_shift_div_l; [exact Py | rewrite Ey; lra].
  - apply Qle_shift_div_r; [exact Py | rewrite Ey; lra].
Qed.

(** [max(v, 0.0)] of a finite value is not negative. *)
Lemma pymax_zero_inQ (v : float) (lo hi : Q) :
  inQ v lo hi -> (0 <= hi)%Q -> inQ (pymax v (of_int 0)) 0 hi.
Proof.
  intros (F & A & B) H. unfold pymax. cbn [flt binary64].
  destruct (v <? of_int 0)%float eqn:E.
  - split; [reflexivity|]. split; [apply Qle_refl | exact H].
  - split; [exact F|]. split; [|exact B].
    destruct (Qlt_le_dec (fval v) 0) as [Lt|Le]; [|exact Le].
    assert (Z : ffin (of_int 0) = true) by reflexivity.
    apply (ltb_fval v (of_int 0) F Z) in Lt. congruence.
Qed.

(** ** What an operation rounds, and by how much *)

Lemma mul_rounds (x y : float) :
  ffin x = true -> ffin y = true -> rounds_to (Prim2SF (x * y)) (fval x * fval y).
Proof.
  intros Fx Fy. pose proof (Prim2SF_valid (x * y)) as V. rewrite mul_spec in *.
  apply SFmul_rounds; try assumption; apply Prim2SF_valid.
Qed.

Lemma add_rounds (x y : float) :
  ffin x = true -> ffin y = true -> rounds_to (Prim2SF (x + y)) (fval x + fval y).
Proof.
  intros Fx Fy. pose proof (Prim2SF_valid (x + y)) as V. rewrite add_spec in *.
  apply SFadd_rounds; try assumption; apply Prim2SF_valid.
Qed.

Lemma sub_rounds (x y : float) :
  ffin x = true -> ffin y = true -> rounds_to (Prim2SF (x - y)) (fval x - fval y).
Proof.
  intros Fx Fy. pose proof (Prim2SF_valid (x - y)) as V. rewrite sub_spec in *.
  apply SFsub_rounds; try assumption; apply Prim2SF_valid.
Qed.

Lemma div_rounds (x y : float) :
  ffin x = true -> ffin y = true -> ~ (fval y == 0)%Q ->
  rounds_to (Prim2SF (x / y)) (fval x / fval y).
Proof.
  intros Fx Fy N. pose proof (Prim2SF_valid (x / y)) as V. rewrite div_spec in *.
  apply SFdiv_rounds; try assumption; apply Prim2SF_valid.
Qed.

(** The multiples of [2^k] below [2^(k+53)] are doubles. *)
Lemma grid_repr (n k : Z) :
  - 2 ^ 53 < n < 2 ^ 53 -> -1022 <= k <= 971 -> repr (F2Q n k).
Proof.
  intros Hn Hk. destruct n as [|p|p].
  - exists 0%float. split; [reflexivity|]. unfold F2Q. cbn. ring.
  - destruct (dyadic_is_double false p k ltac:(lia) Hk) as (f & Vf & Ff & Ef).
    exists (SF2Prim f). unfold ffin, fval. rewrite Prim2SF_SF2Prim by exact Vf.
    split; [exact Ff | exact Ef].
  - destruct (dyadic_is_double true p k ltac:(lia) Hk) as (f & Vf & Ff & Ef).
    exists (SF2Prim f). unfold ffin, fval. rewrite Prim2SF_SF2Prim by exact Vf.
    split; [exact Ff | exact Ef].
Qed.

(** A result of magnitude at most [2^(k+52)] is within [2^k] of the exact value. *)
Lemma rounding_error (r : float) (v : Q) (k : Z) :
  rounds_to (Prim2SF r) v -> -1022 <= k <= 971 ->
  (- 2 ^ (k + 52) <= v <= 2 ^ (k + 52))%Q ->
  ffin r = true /\ (- 2 ^ k <= fval r - v <= 2 ^ k)%Q.
Proof.
  intros R Hk [Hl Hh].
  set (x := (v * 2 ^ (- k))%Q).
  assert (P1 : (2 ^ (- k) * 2 ^ k == 1)%Q).
  { rewrite <- pow2_add. replace (- k + k) with 0 by ring. reflexivity. }
  assert (P2 : (2 ^ (k + 52) * 2 ^ (- k) == inject_Z (2 ^ 52))%Q).
  { rewrite <- pow2_add. replace (k + 52 + - k) with 52 by ring. reflexivity. }
  pose proof (pow2_pos k) as Pk. pose proof (pow2_pos (- k)) as Pn.
  assert (Ex : (x * 2 ^ k == v)%Q).
  { unfold x. rewrite <- Qmult_assoc, P1. ring. }
  assert (X1 : (x <= inject_Z (2 ^ 52))%Q).
  { rewrite <- P2. unfold x. apply Qmult_le_compat_r; [exact Hh | apply Qlt_le_weak, Pn]. }
  assert (X2 : (inject_Z (- 2 ^ 52) <= x)%Q).
  { rewrite inject_Z_opp, <- P2. unfold x.
    setoid_replace (- (2 ^ (k + 52) * 2 ^ (- k)))%Q with ((- 2 ^ (k + 52)) * 2 ^ (- k))%Q by ring.
    apply Qmult_le_compat_r; [exact Hl | apply Qlt_le_weak, Pn]. }
  set (n := Qfloor x).
  assert (N1 : n <= 2 ^ 52).
  { rewrite <- (Qfloor_Z (2 ^ 52)). apply Qfloor_resp_le. exact X1. }
  assert (N2 : - 2 ^ 52 <= n).
  { rewrite <- (Qfloor_Z (- 2 ^ 52)). apply Qfloor_resp_le. exact X2. }
  pose proof (Qfloor_le x) as F1. pose proof (Qlt_floor x) as F2. fold n in F1, F2.
  assert (B1 : (F2Q n k <= v)%Q).
  { rewrite <- Ex. unfold F2Q. apply Qmult_le_compat_r; [exact F1 | apply Qlt_le_weak, Pk]. }
  assert (B2 : (v <= F2Q (n + 1) k)%Q).
  { rewrite <- Ex. unfold F2Q.
    apply Qmult_le_compat_r; [apply Qlt_le_weak, F2 | apply Qlt_le_weak, Pk]. }
  assert (W : (F2Q (n + 1) k == F2Q n k + 2 ^ k)%Q).
  { unfold F2Q. rewrite inject_Z_plus. change (inject_Z 1) with 1%Q.
    generalize (2 ^ k)%Q (inject_Z n). intros; ring. }
  assert (C53 : 2 ^ 52 < 2 ^ 53) by reflexivity.
  destruct (bracket (Prim2SF r) v (F2Q n k) (F2Q (n + 1) k) (Prim2SF_valid r) R)
    as (F & A & B).
  - apply grid_repr; lia.
  - apply grid_repr; lia.
  - split; assumption.
  - split; [exact F|]. unfold fval. rewrite W in *.
    generalize dependent (F2Q n k). generalize dependent (2 ^ k)%Q.
    intros; lra.
Qed.

Lemma eqb_fval (x y : float) :
  ffin x = true -> ffin y = true -> ((x =? y)%float = true <-> (fval x == fval y)%Q).
Proof.
  intros Fx Fy. rewrite eqb_spec. unfold SFeqb.
  rewrite (SFcompare_val _ _ (Prim2SF_valid x) (Prim2SF_valid y) Fx Fy).
  fold (fval x) (fval y). rewrite Qeq_alt.
  destruct (fval x ?= fval y)%Q; split; congruence.
Qed.

Lemma repr_fval (x : float) : ffin x = true -> repr (fval x).
Proof. intros F. exists x. split; [exact F | reflexivity]. Qed.

(** ** Integers and literals *)

Lemma inQb_spec (x : float) (lo hi : Q) : inQb x lo hi = true -> inQ x lo hi.
Proof.
  unfold inQb. intros H. apply andb_prop in H. destruct H as [H C].
  apply andb_prop in H. destruct H as [A B].
  split; [exact A|]. split; apply Qle_bool_iff; assumption.
Qed.

(** [float(z)] is exact up to 53 bits. *)
Lemma of_int_exact (z : Z) :
  - 2 ^ 53 < z < 2 ^ 53 ->
  ffin (Z2float z) = true /\ (fval (Z2float z) == inject_Z z)%Q.
Proof.
  intros H. unfold ffin, fval, Z2float.
  rewrite Prim2SF_SF2Prim by apply binary_normalize_valid.
  apply binary_normalize_int. exact H.
Qed.

Lemma repr_Z (z : Z) : - 2 ^ 53 < z < 2 ^ 53 -> repr (inject_Z z).
Proof. intros H. exists (Z2float z). apply of_int_exact. exact H. Qed.

Lemma of_int_inQ (z lo hi : Z) :
  - 2 ^ 53 < lo -> hi < 2 ^ 53 -> lo <= z <= hi ->
  inQ (Z2float z) (inject_Z lo) (inject_Z hi).
Proof.
  intros Hl Hh Hz. destruct (of_int_exact z ltac:(lia)) as [F E].
  split; [exact F|]. rewrite E. rewrite <- !Zle_Qle. exact Hz.
Qed.

Ltac qle := apply Qle_bool_iff; vm_compute; reflexivity.
Ltac rz := apply repr_Z; vm_compute; split; reflexivity.
Ltac cst := apply inQb_spec; vm_compute; reflexivity.
Ltac rf f := exists f; split; [reflexivity | vm_compute; reflexivity].

Lemma between_of_int (a b : Z) (x : float) :
  - 2 ^ 53 < a < 2 ^ 53 -> - 2 ^ 53 < b < 2 ^ 53 ->
  between (of_int a) x (of_int b) = true -> inQ x (inject_Z a) (inject_Z b).
Proof.
  intros Ha Hb H. cbn [of_int binary64] in H.
  destruct (of_int_exact a Ha) as [Fa Ea]. destruct (of_int_exact b Hb) as [Fb Eb].
  pose proof (between_inQ _ _ _ Fa Fb H) as (F & A & B).
  split; [exact F|]. rewrite <- Ea, <- Eb. split; assumption.
Qed.

Lemma betweenZ_spec (a x b : Z) : betweenZ a x b = true -> a <= x <= b.
Proof. unfold betweenZ. intros H. apply andb_prop in H. lia. Qed.

(** ** The range of every value of a valid run *)

(** What the widgets' bounds give. *)
Lemma valid_bounds (w : Widgets float) :
  valid w = true ->
  14 <= age w <= 90 /\
  (if imperial w
   then 3 <= ft w <= 8 /\ 0 <= inch w <= 11 /\ inQ (weight_lb w) 60 600
   else inQ (metric_height_cm w) 120 230 /\ inQ (metric_weight_kg w) 30 250) /\
  match body_fat w with
  | Some b => inQ b 0 70 /\ fle (of_int 0) b = true
  | None => True
  end /\
  -30 <= base_calorie_delta_pct w <= 20 /\
  0 <= override_calories w <= 10000 /\
  inQ (base_protein_per_lb w) (1 # 2) 2 /\
  1 <= meals w <= 8.
Proof.
  unfold valid. intros H.
  repeat match type of H with (_ && _ = true) => apply andb_prop in H; destruct H as [H ?] end.
  repeat match goal with X : betweenZ _ _ _ = true |- _ => apply betweenZ_spec in X end.
  split; [assumption|]. split; [|split; [|repeat split; try lia]].
  - destruct (imperial w).
    + match goal with X : _ && _ = true |- _ => rename X into I end.
      repeat match type of I with (_ && _ = true) => apply andb_prop in I; destruct I as [I ?] end.
      repeat match goal with X : betweenZ _ _ _ = true |- _ => apply betweenZ_spec in X end.
      repeat split; try lia;
        match goal with X : between _ _ _ = true |- _ =>
          apply (between_of_int 60 600) in X; [apply X | lia | lia] end.
    + match goal with X : _ && _ = true |- _ => rename X into I end.
      apply andb_prop in I. destruct I as [I1 I2].
      apply (between_of_int 120 230) in I1; [|lia|lia].
      apply (between_of_int 30 250) in I2; [|lia|lia]. split; assumption.
  - destruct (body_fat w) as [b|]; [|exact I].
    match goal with X : between _ b _ = true |- _ => rename X into B end.
    split; [apply (between_of_int 0 70); [lia | lia | exact B]|].
    unfold between in B. apply andb_prop in B. apply B.
  - match goal with X : between _ (base_protein_per_lb w) _ = true |- _ => rename X into B end.
    apply between_inQ in B; [|reflexivity|reflexivity]. apply B.
  - match goal with X : between _ (base_protein_per_lb w) _ = true |- _ => rename X into B end.
    apply between_inQ in B; [|reflexivity|reflexivity].
    destruct B as (_ & B & _). eapply Qle_trans; [|exact B]. qle.
  - match goal with X : between _ (base_protein_per_lb w) _ = true |- _ => rename X into B end.
    apply between_inQ in B; [|reflexivity|reflexivity].
    destruct B as (_ & _ & B). eapply Qle_trans; [exact B|]. qle.
Qed.

(** The literals of the helper functions. *)
Lemma lit_254 : inQ (dec 254 2) (5 # 2) 3.
Proof. cst. Qed.
Lemma lit_45359237 : inQ (dec 45359237 8) (1 # 4) (1 # 2).
Proof. cst. Qed.
Lemma lit_625 : inQ (dec 625 2) (25 # 4) (25 # 4).
Proof. cst. Qed.
Lemma lit_216 : inQ (dec 216 1) 21 22.
Proof. cst. Qed.

Lemma of_int_lit (z : Z) :
  - 2 ^ 53 < z < 2 ^ 53 -> inQ (of_int z) (inject_Z z) (inject_Z z).
Proof. intros H. apply of_int_inQ; lia. Qed.

Section Bounds.
Variable w : Widgets float.
Hypothesis V : valid w = true.

Lemma height_bounds : inQ (height_cm w) 90 321.
Proof.
  destruct (valid_bounds w V) as (_ & I & _). unfold height_cm.
  destruct (imperial w).
  - destruct I as (Hf & Hi & _). unfold in_to_cm.
    apply (mul_inQ _ _ 36 107 (5 # 2) 3); [| apply lit_254 | rz | rz | lra | lra | lra | lra].
    apply (of_int_inQ _ 36 107); lia.
  - destruct I as [I _]. apply (inQ_weaken _ _ _ _ _ I); lra.
Qed.

Lemma weight_bounds : inQ (weight_kg w) 15 300.
Proof.
  destruct (valid_bounds w V) as (_ & I & _). unfold weight_kg.
  destruct (imperial w).
  - destruct I as (_ & _ & I). unfold lb_to_kg.
    apply (mul_inQ _ _ 60 600 (1 # 4) (1 # 2)); [exact I | apply lit_45359237 | rz | rz | lra | lra | lra | lra].
  - destruct I as [_ I]. apply (inQ_weaken _ _ _ _ _ I); lra.
Qed.

Lemma lean_bounds (l : float) : lean_mass_kg w = Some l -> inQ l 0 300.
Proof.
  destruct (valid_bounds w V) as (_ & _ & B & _). unfold lean_mass_kg.
  destruct (body_fat w) as [b|]; [|discriminate].
  destruct B as [B B0]. rewrite B0. cbv zeta. intros E. injection E as <-.
  assert (Z0 : inQ (of_int 0) 0 70) by cst.
  assert (Z70 : inQ (of_int 70) 0 70) by cst.
  pose proof (pymin_inQ _ _ _ _ (pymax_inQ _ _ _ _ B Z0) Z70) as C.
  assert (BF : inQ (fdiv (pymin (pymax b (of_int 0)) (of_int 70)) (of_int 100)) 0 1).
  { apply (div_inQ_const _ _ 0 70 100); [exact C | cst | rz | rz | lra | lra | lra]. }
  assert (R : inQ (fsub (of_int 1) (fdiv (pymin (pymax b (of_int 0)) (of_int 70)) (of_int 100))) 0 1).
  { apply (sub_inQ _ _ 1 1 0 1); [cst | exact BF | rz | rz | lra | lra]. }
  apply (mul_inQ _ _ 15 300 0 1); [apply weight_bounds | exact R | rz | rz | lra | lra | lra | lra].
Qed.

Lemma katch_bounds (l : float) : inQ l 0 300 -> inQ (katch_mc_ardle l) 370 7000.
Proof.
  intros L. unfold katch_mc_ardle.
  apply (add_inQ _ _ 370 370 0 6600); [cst | | rz | rz | lra | lra].
  apply (mul_inQ _ _ 21 22 0 300); [apply lit_216 | exact L | rz | rz | lra | lra | lra | lra].
Qed.

Lemma mifflin_bounds : inQ (mifflin_st_jeor (sex w) (weight_kg w) (height_cm w) (age w)) 100 7000.
Proof.
  destruct (valid_bounds w V) as (Ha & _). unfold mifflin_st_jeor. cbv zeta.
  assert (S : inQ (of_int (if String.eqb (sex w) "Male" then 5 else -161)) (-161) 5).
  { destruct (String.eqb (sex w) "Male"); cst. }
  apply (add_inQ _ _ 262 4950 (-161) 5); [| exact S | rz | rz | lra | lra].
  apply (sub_inQ _ _ 712 5020 70 450); [| apply (of_int_inQ _ 70 450); lia | rz | rz | lra | lra].
  apply (add_inQ _ _ 150 3000 562 2010); [| | rz | rz | lra | lra].
  - apply (mul_inQ _ _ 10 10 15 300); [cst | apply weight_bounds | rz | rz | lra | lra | lra | lra].
  - apply (mul_inQ _ _ (25 # 4) (25 # 4) 90 321);
      [apply lit_625 | apply height_bounds | rz | rz | lra | lra | lra | lra].
Qed.

Lemma bmr_bounds : inQ (bmr w) 100 7000.
Proof.
  unfold bmr, bmr_choice.
  destruct (lean_mass_kg w) as [l|] eqn:E; [|apply mifflin_bounds].
  pose proof (lean_bounds l E) as L.
  cbn [fisnan binary64]. rewrite (is_nan_finite l (proj1 L)). cbn [negb fst].
  apply (inQ_weaken _ _ _ _ _ (katch_bounds l L)); lra.
Qed.

Lemma multiplier_bounds (m : float) :
  getitem ACTIVITY (activity_label w) = Ok m -> inQ m 1 2.
Proof.
  intros Hm. pose proof (activity_closed (F := float) (activity_label w)) as Hc.
  rewrite Hm in Hc. destruct Hc as (a & _ & ->). destruct a; cst.
Qed.

Variable m : float.
Hypothesis Hm : getitem ACTIVITY (activity_label w) = Ok m.

Lemma tdee_bounds : inQ (tdee w m) 100 14000.
Proof.
  unfold tdee.
  apply (mul_inQ _ _ 100 7000 1 2);
    [apply bmr_bounds | apply multiplier_bounds, Hm | rz | rz | lra | lra | lra | lra].
Qed.

Lemma target_bounds : inQ (target_cal w m) 1 21000.
Proof.
  destruct (valid_bounds w V) as (_ & _ & _ & Hd & Ho & _). unfold target_cal.
  rewrite overridden_iff_positive.
  destruct (Z.ltb_spec 0 (override_calories w)) as [P|N].
  - apply (of_int_inQ _ 1 21000); lia.
  - apply (mul_inQ _ _ 100 14000 (1 # 2) (3 # 2));
      [apply tdee_bounds | | rz | rz | lra | lra | lra | lra].
    apply (add_inQ _ _ 1 1 (- (1 # 2)) (1 # 2));
      [cst | | rf 0.5%float | rf 1.5%float | lra | lra].
    apply (div_inQ_const _ _ (-30) 20 100);
      [| cst | rf (-0.5)%float | rf 0.5%float | lra | lra | lra].
    pose proof (effective_delta_cases w) as Hc. cbn [In] in Hc.
    apply (of_int_inQ _ (-30) 20); lia.
Qed.

Lemma protein_rate_bounds : inQ (calc_protein_per_lb (effective_goal w)) (1 # 2) 2.
Proof.
  destruct (valid_bounds w V) as (_ & _ & _ & _ & _ & Hb & _).
  unfold effective_goal. cbv zeta.
  destruct (negb (String.eqb (preset w) "Custom")), (prefix "Cut" (preset w)),
    (prefix "Recomp" (preset w)), (prefix "Lean Bulk" (preset w));
    cbn [calc_protein_per_lb]; try exact Hb; apply pymax_inQ; try exact Hb; cst.
Qed.

Lemma basis_bounds : inQ (basis_lb w) 0 1200.
Proof.
  assert (K : forall x, inQ x 0 300 -> inQ (kg_to_lb x) 0 1200).
  { intros x X. unfold kg_to_lb.
    apply (div_inQ _ _ 0 300 (1 # 4) (1 # 2)); [exact X | apply lit_45359237 | rz | rz | lra..]. }
  assert (W : inQ (weight_kg w) 0 300) by (apply (inQ_weaken _ _ _ _ _ weight_bounds); lra).
  unfold basis_lb. destruct (use_lean_mass w); [|apply K, W].
  destruct (lean_mass_kg w) as [l|] eqn:E; [|apply K, W].
  apply K, (lean_bounds l E).
Qed.

Lemma grams_protein_bounds : inQ (grams_protein w) 0 2400.
Proof.
  unfold grams_protein.
  apply (mul_inQ _ _ 0 1200 (1 # 2) 2);
    [apply basis_bounds | apply protein_rate_bounds | rz | rz | lra..].
Qed.

Lemma kcal_protein_bounds : inQ (kcal_protein w) 0 9600.
Proof.
  unfold kcal_protein.
  apply (mul_inQ _ _ 0 2400 4 4); [apply grams_protein_bounds | cst | rz | rz | lra..].
Qed.

Lemma kcal_fat_bounds : inQ (kcal_fat w m) 0 21000.
Proof.
  unfold kcal_fat.
  apply (mul_inQ _ _ 1 21000 0 1); [apply target_bounds | | rz | rz | lra..].
  apply (div_inQ_const _ _ 25 35 100); [| cst | rz | rz | lra | lra | lra].
  pose proof (effective_fat_percent_cases w) as Hc.
  apply (of_int_inQ _ 25 35); lia.
Qed.

Lemma grams_fat_bounds : inQ (grams_fat w m) 0 2400.
Proof.
  unfold grams_fat.
  apply (div_inQ_const _ _ 0 21000 9); [apply kcal_fat_bounds | cst | rz | rz | lra | lra | lra].
Qed.

Lemma protein_fat_bounds : inQ (fadd (kcal_protein w) (kcal_fat w m)) 0 30600.
Proof.
  apply (add_inQ _ _ 0 9600 0 21000);
    [apply kcal_protein_bounds | apply kcal_fat_bounds | rz | rz | lra | lra].
Qed.

Lemma kcal_carb_bounds : inQ (kcal_carb w m) 0 21000.
Proof.
  unfold kcal_carb. apply (pymax_zero_inQ _ (-30600)); [|lra].
  apply (sub_inQ _ _ 1 21000 0 30600);
    [apply target_bounds | apply protein_fat_bounds | rz | rz | lra | lra].
Qed.

Lemma grams_carb_bounds : inQ (grams_carb w m) 0 5250.
Proof.
  unfold grams_carb.
  apply (div_inQ_const _ _ 0 21000 4); [apply kcal_carb_bounds | cst | rz | rz | lra | lra | lra].
Qed.

End Bounds.

(** C6. In binary64, for every input within the bounds of the widgets and
    an activity label of the table, protein, fat and carbohydrate grams are
    not negative: [0.0 <= x] holds for each (so none of them is NaN). *)
Theorem C6_nonnegative_macros (w : Widgets float) (m : float) :
  valid w = true ->
  getitem ACTIVITY (activity_label w) = Ok m ->
  fle (of_int 0) (grams_protein w) = true /\
  fle (of_int 0) (grams_fat w m) = true /\
  fle (of_int 0) (grams_carb w m) = true.
Proof.
  intros V Hm. split; [|split].
  - exact (fle_zero _ _ (grams_protein_bounds w V)).
  - exact (fle_zero _ _ (grams_fat_bounds w V m Hm)).
  - exact (fle_zero _ _ (grams_carb_bounds w V m Hm)).
Qed.

Lemma C6_nonnegative_macros_witness :
  valid defaults = true /\
  getitem (ACTIVITY (F := float)) (activity_label defaults) = Ok (multiplier Moderate) /\
  fle (of_int 0) (grams_protein defaults) = true /\
  fle (of_int 0) (grams_fat defaults (multiplier Moderate)) = true /\
  fle (of_int 0) (grams_carb defaults (multiplier Moderate)) = true.
Proof.
  assert (V : valid defaults = true) by (vm_compute; reflexivity).
  assert (L : getitem (ACTIVITY (F := float)) (activity_label defaults) = Ok (multiplier Moderate))
    by reflexivity.
  split; [exact V | split; [exact L|]].
  exact (C6_nonnegative_macros defaults (multiplier Moderate) V L).
Defined.

(** ** The budget identities *)

Lemma close_intro (tol a b : Q) : (- tol <= a - b <= tol)%Q -> close tol a b.
Proof. intros H. apply Qabs_Qle_condition. exact H. Qed.

Lemma pymax_zero_keeps (v : float) (hi : Q) : inQ v 0 hi -> pymax v (of_int 0) = v.
Proof.
  intros (F & A & _). unfold pymax. cbn [flt binary64].
  destruct (v <? of_int 0)%float eqn:E; [|reflexivity].
  assert (Z : ffin (of_int 0) = true) by reflexivity.
  apply (ltb_fval v (of_int 0) F Z) in E. change (fval (of_int 0)) with 0%Q in E. lra.
Qed.

Section Budget.
Variable w : Widgets float.
Hypothesis V : valid w = true.
Variable m : float.
Hypothesis Hm : getitem ACTIVITY (activity_label w) = Ok m.

Let kp := kcal_protein w.
Let kf := kcal_fat w m.
Let t := target_cal w m.
Let s := fadd kp kf.
Let v := fsub t s.

Lemma target_positive : flt (of_int 0) t = true /\ feq t (of_int 0) = false.
Proof.
  destruct (target_bounds w V m Hm) as (F & A & _). fold t in F, A.
  assert (Z : ffin (of_int 0) = true) by reflexivity.
  assert (P : flt (of_int 0) t = true).
  { cbn [flt binary64]. apply (ltb_fval _ _ Z F). change (fval (of_int 0)) with 0%Q. lra. }
  split; [exact P | apply positive_nonzero; exact P].
Qed.

(** The sum of protein and fat calories, rounded once. *)
Lemma protein_fat_error :
  (- (1 # 68719476736) <= fval s - (fval kp + fval kf) <= 1 # 68719476736)%Q.
Proof.
  destruct (kcal_protein_bounds w V) as (Fp & P1 & P2).
  destruct (kcal_fat_bounds w V m Hm) as (Ff & F1 & F2). fold kp in Fp, P1, P2. fold kf in Ff, F1, F2.
  destruct (rounding_error s (fval kp + fval kf) (-36) (add_rounds kp kf Fp Ff)) as [_ E];
    [lia | | exact E].
  change (2 ^ (-36 + 52))%Q with 65536%Q. lra.
Qed.

Lemma percent_of_value (k : float) :
  percent_of w m k = Ok (fmul (fdiv k t) (of_int 100)).
Proof.
  unfold percent_of. fold t. destruct target_positive as [P N].
  rewrite P. unfold pydiv. rewrite N. reflexivity.
Qed.

(** One percentage, [(k / t) * 100]: a division and a multiplication, each
    rounded once. *)
Lemma percent_error (k : float) :
  ffin k = true -> (0 <= fval k <= 2 * fval t)%Q ->
  ffin (fmul (fdiv k t) (of_int 100)) = true /\
  (- (57 # 562949953421312)
   <= fval (fmul (fdiv k t) (of_int 100)) - 100 * (fval k / fval t)
   <= 57 # 562949953421312)%Q.
Proof.
  intros Fk [K1 K2].
  destruct (target_bounds w V m Hm) as (Ft & T1 & T2). fold t in Ft, T1, T2.
  assert (N : ~ (fval t == 0)%Q) by (intros E; rewrite E in T1; lra).
  assert (Pt : (0 < fval t)%Q) by lra.
  assert (R1 : (0 <= fval k / fval t)%Q) by (apply Qle_shift_div_l; [exact Pt | lra]).
  assert (R2 : (fval k / fval t <= 2)%Q) by (apply Qle_shift_div_r; [exact Pt | lra]).
  pose proof (div_rounds k t Fk Ft N) as Rq.
  destruct (rounding_error (k / t)%float (fval k / fval t) (-51) Rq) as [Fq Eq];
    [lia | change (2 ^ (-51 + 52))%Q with 2%Q; lra |].
  change (2 ^ (-51))%Q with (1 # 2251799813685248)%Q in Eq.
  assert (F100 : ffin (of_int 100) = true) by reflexivity.
  assert (E100 : (fval (of_int 100) == 100)%Q) by (vm_compute; reflexivity).
  pose proof (mul_rounds (k / t)%float (of_int 100) Fq F100) as Rp.
  apply (rounds_to_ext _ _ (fval (k / t)%float * 100)) in Rp; [|rewrite E100; reflexivity].
  destruct (rounding_error ((k / t) * of_int 100)%float _ (-44) Rp) as [Fp Ep];
    [lia | change (2 ^ (-44 + 52))%Q with 256%Q; lra |].
  change (2 ^ (-44))%Q with (1 # 17592186044416)%Q in Ep.
  split; [exact Fp|].
  change (fmul (fdiv k t) (of_int 100)) with ((k / t) * of_int 100)%float.
  generalize dependent (fval ((k / t) * of_int 100)%float).
  generalize dependent (fval (k / t)%float).
  generalize dependent (fval k / fval t)%Q. intros; lra.
Qed.

Section Unclamped.
Hypothesis H : fle s t = true.

Lemma protein_fat_below_target : (fval s <= fval t)%Q.
Proof.
  apply leb_fval; [apply (protein_fat_bounds w V m Hm) | apply (target_bounds w V m Hm) | exact H].
Qed.

Lemma rest_bounds : inQ v 0 21000.
Proof.
  pose proof protein_fat_below_target as L.
  destruct (target_bounds w V m Hm) as (Ft & T1 & T2).
  destruct (protein_fat_bounds w V m Hm) as (Fs & S1 & S2).
  fold t in Ft, T1, T2. fold kp kf s in Fs, S1, S2.
  apply sub_interval; try assumption; [rz | rz | lra].
Qed.

Lemma rest_error :
  (- (1 # 137438953472) <= fval v - (fval t - fval s) <= 1 # 137438953472)%Q.
Proof.
  pose proof protein_fat_below_target as L.
  destruct (target_bounds w V m Hm) as (Ft & T1 & T2).
  destruct (protein_fat_bounds w V m Hm) as (Fs & S1 & S2).
  fold t in Ft, T1, T2. fold kp kf s in Fs, S1, S2.
  destruct (rounding_error v (fval t - fval s) (-37) (sub_rounds t s Ft Fs)) as [_ E];
    [lia | | exact E].
  change (2 ^ (-37 + 52))%Q with 32768%Q. lra.
Qed.

Lemma kcal_carb_unclamped : kcal_carb w m = v.
Proof. unfold kcal_carb. fold t kp kf s v. apply (pymax_zero_keeps _ _ rest_bounds). Qed.

Lemma kcal_sum_close :
  close kcal_tolerance (fval kp + fval kf + fval (kcal_carb w m)) (fval t).
Proof.
  rewrite kcal_carb_unclamped. apply close_intro. unfold kcal_tolerance.
  pose proof protein_fat_error. pose proof rest_error. lra.
Qed.

Lemma kcal_float_sum_close :
  ffin (fadd (fadd kp kf) (kcal_carb w m)) = true /\
  close kcal_tolerance (fval (fadd (fadd kp kf) (kcal_carb w m))) (fval t).
Proof.
  rewrite kcal_carb_unclamped. fold s.
  pose proof protein_fat_below_target as L.
  destruct (target_bounds w V m Hm) as (Ft & T1 & T2).
  destruct (protein_fat_bounds w V m Hm) as (Fs & S1 & S2).
  destruct rest_bounds as (Fv & V1 & V2).
  fold t in Ft, T1, T2. fold kp kf s in Fs, S1, S2.
  pose proof (add_rounds s v Fs Fv) as R.
  destruct (rounding_error (s + v)%float (fval s + fval v) (-36) R) as [F E];
    [lia | change (2 ^ (-36 + 52))%Q with 65536%Q; lra |].
  change (s + v)%float with (fadd s v) in F, E.
  split; [exact F|]. apply close_intro. unfold kcal_tolerance.
  change (2 ^ (-36))%Q with (1 # 68719476736)%Q in E.
  pose proof rest_error. lra.
Qed.

Lemma percent_sum_close :
  exists pp pf pc : float,
    pct_protein w m = Ok pp /\ pct_fat w m = Ok pf /\ pct_carb w m = Ok pc /\
    ffin pp = true /\ ffin pf = true /\ ffin pc = true /\
    close percent_tolerance (fval pp + fval pf + fval pc) 100 /\
    ffin (fadd (fadd pp pf) pc) = true /\
    close percent_tolerance (fval (fadd (fadd pp pf) pc)) 100.
Proof.
  unfold pct_protein, pct_fat, pct_carb. rewrite !percent_of_value.
  fold kp kf. rewrite kcal_carb_unclamped.
  set (pp := fmul (fdiv kp t) (of_int 100)).
  set (pf := fmul (fdiv kf t) (of_int 100)).
  set (pc := fmul (fdiv v t) (of_int 100)).
  exists pp, pf, pc. do 3 (split; [reflexivity|]).
  pose proof protein_fat_below_target as L.
  pose proof protein_fat_error as E1. pose proof rest_error as E2.
  destruct (target_bounds w V m Hm) as (Ft & T1 & T2).
  destruct (kcal_protein_bounds w V) as (Fp & P1 & P2).
  destruct (kcal_fat_bounds w V m Hm) as (Ff & F1 & F2).
  destruct rest_bounds as (Fv & V1 & V2).
  fold t in Ft, T1, T2. fold kp in Fp, P1, P2. fold kf in Ff, F1, F2.
  destruct (percent_error kp Fp ltac:(lra)) as [Gp Ep].
  destruct (percent_error kf Ff ltac:(lra)) as [Gf Ef].
  destruct (percent_error v Fv ltac:(lra)) as [Gc Ec].
  fold pp in Gp, Ep. fold pf in Gf, Ef. fold pc in Gc, Ec.
  assert (N : ~ (fval t == 0)%Q) by (intros E; rewrite E in T1; lra).
  assert (Rp : (fval kp / fval t * fval t == fval kp)%Q) by (field; exact N).
  assert (Rf : (fval kf / fval t * fval t == fval kf)%Q) by (field; exact N).
  assert (Rc : (fval v / fval t * fval t == fval v)%Q) by (field; exact N).
  assert (Pt : (0 < fval t)%Q) by lra.
  assert (Qp : (0 <= fval kp / fval t)%Q) by (apply Qle_shift_div_l; [exact Pt | lra]).
  assert (Qf : (0 <= fval kf / fval t)%Q) by (apply Qle_shift_div_l; [exact Pt | lra]).
  assert (Qc : (0 <= fval v / fval t)%Q) by (apply Qle_shift_div_l; [exact Pt | lra]).
  set (rp := (fval kp / fval t)%Q) in *. set (rf := (fval kf / fval t)%Q) in *.
  set (rc := (fval v / fval t)%Q) in *.
  assert (D : (- (3 # 137438953472) <= rp + rf + rc - 1 <= 3 # 137438953472)%Q).
  { assert (X : ((rp + rf + rc - 1) * fval t == fval kp + fval kf + fval v - fval t)%Q).
    { setoid_replace ((rp + rf + rc - 1) * fval t)%Q
        with (rp * fval t + rf * fval t + rc * fval t - fval t)%Q by ring.
      rewrite Rp, Rf, Rc. reflexivity. }
    generalize dependent (rp + rf + rc - 1)%Q. intros u X.
    assert (Y : (- (3 # 137438953472) <= u * fval t <= 3 # 137438953472)%Q)
      by (rewrite X; lra).
    split; nra. }
  assert (S3 : (- (1228971 # 562949953421312) <= fval pp + fval pf + fval pc - 100
                <= 1228971 # 562949953421312)%Q) by lra.
  do 3 (split; [assumption|]).
  split; [apply close_intro; unfold percent_tolerance; lra|].
  pose proof (add_rounds pp pf Gp Gf) as R1.
  destruct (rounding_error (pp + pf)%float _ (-43) R1) as [G1 X1];
    [lia | change (2 ^ (-43 + 52))%Q with 512%Q; lra |].
  change (2 ^ (-43))%Q with (1 # 8796093022208)%Q in X1.
  pose proof (add_rounds (pp + pf)%float pc G1 Gc) as R2.
  destruct (rounding_error ((pp + pf) + pc)%float _ (-43) R2) as [G2 X2];
    [lia | change (2 ^ (-43 + 52))%Q with 512%Q; lra |].
  change (2 ^ (-43))%Q with (1 # 8796093022208)%Q in X2.
  change (fadd (fadd pp pf) pc) with ((pp + pf) + pc)%float.
  split; [exact G2|]. apply close_intro. unfold percent_tolerance. lra.
Qed.

End Unclamped.

Section Clamped.
Hypothesis H : fle s t = false.

Lemma target_below_protein_fat : (fval t < fval s)%Q.
Proof.
  destruct (Qlt_le_dec (fval t) (fval s)) as [A|B]; [exact A|exfalso].
  apply (leb_fval s t) in B;
    [| apply (protein_fat_bounds w V m Hm) | apply (target_bounds w V m Hm)].
  cbn [fle binary64] in H. congruence.
Qed.

Lemma carb_clamped :
  feq (kcal_carb w m) (of_int 0) = true /\ (fval (kcal_carb w m) == 0)%Q.
Proof.
  pose proof target_below_protein_fat as L.
  destruct (target_bounds w V m Hm) as (Ft & T1 & T2).
  destruct (protein_fat_bounds w V m Hm) as (Fs & S1 & S2).
  fold t in Ft, T1, T2. fold kp kf s in Fs, S1, S2.
  assert (Bv : inQ v (-30600) 0) by (apply sub_interval; try assumption; [rz | rz | lra]).
  destruct Bv as (Fv & V1 & V2).
  assert (Z : ffin (of_int 0) = true) by reflexivity.
  unfold kcal_carb. fold t kp kf s v. unfold pymax. cbn [flt binary64].
  destruct (v <? of_int 0)%float eqn:E; [split; reflexivity|].
  assert (E0 : (fval v == 0)%Q).
  { apply Qle_antisym; [exact V2|].
    destruct (Qlt_le_dec (fval v) 0) as [A|B]; [|exact B].
    apply (ltb_fval v (of_int 0) Fv Z) in A. congruence. }
  split; [|exact E0]. cbn [feq binary64]. apply (eqb_fval v (of_int 0) Fv Z). exact E0.
Qed.

Lemma sum_above_target : (fval t < fval kp + fval kf + fval (kcal_carb w m))%Q.
Proof.
  destruct carb_clamped as [_ E0]. rewrite E0.
  pose proof target_below_protein_fat as L.
  destruct (target_bounds w V m Hm) as (Ft & T1 & T2).
  destruct (kcal_protein_bounds w V) as (Fp & P1 & P2).
  destruct (kcal_fat_bounds w V m Hm) as (Ff & F1 & F2).
  fold t in Ft, T1, T2. fold kp in Fp, P1, P2. fold kf in Ff, F1, F2.
  destruct (Qlt_le_dec (fval t) (fval kp + fval kf)) as [A|B]; [lra|exfalso].
  assert (I : inQ s 0 (fval t)).
  { apply add_interval; try assumption; [rz | apply repr_fval; exact Ft | lra]. }
  destruct I as (_ & _ & I). lra.
Qed.

End Clamped.
End Budget.

(** C5. In binary64, for every input within the bounds of the widgets and
    an activity label of the table, the calorie values and the target are
    finite and the target is positive. When the target covers protein and fat
    calories ([kcal_protein + kcal_fat <= target_cal] as the script computes
    it), the three calorie values add up to the target within [2^-35] kcal
    and the three percentages add up to 100 within [2^-28], both as sums of
    the real values and as the sums Python computes; the identities are
    equalities up to rounding, as the spec's [~] says (the example below has
    them differ in the last place). Otherwise carbohydrate calories are
    clamped to zero and the three calorie values exceed the target. *)
Theorem C5_budget_identities (w : Widgets float) (m : float) :
  valid w = true ->
  getitem ACTIVITY (activity_label w) = Ok m ->
  (ffin (kcal_protein w) = true /\ ffin (kcal_fat w m) = true /\
   ffin (kcal_carb w m) = true /\ ffin (target_cal w m) = true /\
   flt (of_int 0) (target_cal w m) = true) /\
  (fle (fadd (kcal_protein w) (kcal_fat w m)) (target_cal w m) = true ->
   close kcal_tolerance
     (fval (kcal_protein w) + fval (kcal_fat w m) + fval (kcal_carb w m))
     (fval (target_cal w m)) /\
   close kcal_tolerance
     (fval (fadd (fadd (kcal_protein w) (kcal_fat w m)) (kcal_carb w m)))
     (fval (target_cal w m)) /\
   exists pp pf pc : float,
     pct_protein w m = Ok pp /\ pct_fat w m = Ok pf /\ pct_carb w m = Ok pc /\
     ffin pp = true /\ ffin pf = true /\ ffin pc = true /\
     close percent_tolerance (fval pp + fval pf + fval pc) 100 /\
     ffin (fadd (fadd pp pf) pc) = true /\
     close percent_tolerance (fval (fadd (fadd pp pf) pc)) 100) /\
  (fle (fadd (kcal_protein w) (kcal_fat w m)) (target_cal w m) = false ->
   feq (kcal_carb w m) (of_int 0) = true /\
   (fval (target_cal w m)
    < fval (kcal_protein w) + fval (kcal_fat w m) + fval (kcal_carb w m))%Q).
Proof.
  intros V Hm. split; [|split].
  - repeat split;
      [ apply (kcal_protein_bounds w V) | apply (kcal_fat_bounds w V m Hm)
      | apply (kcal_carb_bounds w V m Hm) | apply (target_bounds w V m Hm)
      | apply (target_positive w V m Hm) ].
  - intros H. split; [apply (kcal_sum_close w V m Hm H)|].
    split; [apply (kcal_float_sum_close w V m Hm H)|].
    apply (percent_sum_close w V m Hm H).
  - intros H. split; [apply (carb_clamped w V m Hm H) | apply (sum_above_target w V m Hm H)].
Qed.

Lemma C5_budget_identities_witness :
  valid budget_run = true /\
  getitem (ACTIVITY (F := float)) (activity_label budget_run) = Ok (multiplier Moderate) /\
  fle (fadd (kcal_protein budget_run) (kcal_fat budget_run (multiplier Moderate)))
      (target_cal budget_run (multiplier Moderate)) = true /\
  close kcal_tolerance
    (fval (kcal_protein budget_run) + fval (kcal_fat budget_run (multiplier Moderate))
     + fval (kcal_carb budget_run (multiplier Moderate)))
    (fval (target_cal budget_run (multiplier Moderate))).
Proof.
  assert (V : valid budget_run = true) by (vm_compute; reflexivity).
  assert (L : getitem (ACTIVITY (F := float)) (activity_label budget_run) = Ok (multiplier Moderate))
    by reflexivity.
  assert (H : fle (fadd (kcal_protein budget_run)
                        (kcal_fat budget_run (multiplier Moderate)))
                  (target_cal budget_run (multiplier Moderate)) = true)
    by (vm_compute; reflexivity).
  split; [exact V | split; [exact L | split; [exact H|]]].
  exact (proj1 (proj1 (proj2 (C5_budget_identities budget_run (multiplier Moderate) V L)) H)).
Defined.

(** Rounding shows in the sums Python computes: at 51 kg the target covers
    protein and fat, and the three calorie values add up to
    1973.6335999999997 against a target of 1973.6335999999999; at 32 kg the
    three percentages add up to 100.00000000000001. Both runs are valid. *)
Example budget_sums_are_rounded :
  valid budget_run = true /\
  fle (fadd (kcal_protein budget_run) (kcal_fat budget_run (multiplier Moderate)))
      (target_cal budget_run (multiplier Moderate)) = true /\
  target_cal budget_run (multiplier Moderate) = 1973.6335999999999%float /\
  fadd (fadd (kcal_protein budget_run) (kcal_fat budget_run (multiplier Moderate)))
       (kcal_carb budget_run (multiplier Moderate)) = 1973.6335999999997%float /\
  valid percent_run = true /\
  fle (fadd (kcal_protein percent_run) (kcal_fat percent_run (multiplier Moderate)))
      (target_cal percent_run (multiplier Moderate)) = true /\
  pct_protein percent_run (multiplier Moderate) = Ok 14.342650913731672%float /\
  pct_fat percent_run (multiplier Moderate) = Ok 30%float /\
  pct_carb percent_run (multiplier Moderate) = Ok 55.65734908626834%float /\
  (14.342650913731672 + 30 + 55.65734908626834)%float = 100.00000000000001%float.
Proof. repeat split; vm_compute; reflexivity. Qed.

(** ** Python's [round] and [round_n] *)

(** The nearest integer is within one half. *)
Lemma nearest_even_spec (m e : Z) :
  0 <= m ->
  (- (1 # 2) <= inject_Z (nearest_even m e) - F2Q m e <= 1 # 2)%Q.
Proof.
  intros Hm. unfold nearest_even.
  destruct (Z.leb_spec 0 e) as [P|N].
  - unfold F2Q. rewrite (pow2_inject e P), <- inject_Z_mult.
    setoid_replace (inject_Z (m * 2 ^ e) - inject_Z (m * 2 ^ e))%Q with 0%Q by ring. lra.
  - cbv zeta.
    assert (Pd : 0 < 2 ^ (- e)) by (apply Z.pow_pos_nonneg; lia).
    pose proof (Z.div_mod m (2 ^ (- e)) ltac:(lia)) as E.
    pose proof (Z.mod_pos_bound m (2 ^ (- e)) Pd) as B.
    set (d := 2 ^ (- e)) in *. set (q := m / d) in *. set (r := m mod d) in *.
    assert (V : (F2Q m e * inject_Z d == inject_Z m)%Q).
    { unfold F2Q, d. rewrite <- (pow2_inject (- e)) by lia.
      rewrite <- Qmult_assoc, <- pow2_add. replace (e + - e) with 0 by ring.
      change (2 ^ 0)%Q with 1%Q. ring. }
    assert (PD : (0 < inject_Z d)%Q) by (change 0%Q with (inject_Z 0); rewrite <- Zlt_Qlt; exact Pd).
    assert (K : forall z : Z, - d <= 2 * (z * d - m) <= d ->
                (- (1 # 2) <= inject_Z z - F2Q m e <= 1 # 2)%Q).
    { intros z [K1 K2].
      assert (Q1 : (inject_Z 2 * inject_Z m + - inject_Z d
                    <= inject_Z 2 * inject_Z z * inject_Z d)%Q).
      { rewrite <- !inject_Z_mult, <- inject_Z_opp, <- inject_Z_plus, <- Zle_Qle. lia. }
      assert (Q2 : (inject_Z 2 * inject_Z z * inject_Z d
                    <= inject_Z 2 * inject_Z m + inject_Z d)%Q).
      { rewrite <- !inject_Z_mult, <- inject_Z_plus, <- Zle_Qle. lia. }
      change (inject_Z 2) with 2%Q in Q1, Q2.
      remember (F2Q m e) as Fv. remember (inject_Z d) as D.
      remember (inject_Z m) as M. remember (inject_Z z) as Zq.
      assert (X1 : ((2 * (Zq - Fv) - 1) * D <= 0)%Q).
      { setoid_replace ((2 * (Zq - Fv) - 1) * D)%Q with (2 * Zq * D - 2 * (Fv * D) - D)%Q by ring.
        rewrite V. lra. }
      assert (X2 : (0 <= (2 * (Zq - Fv) + 1) * D)%Q).
      { setoid_replace ((2 * (Zq - Fv) + 1) * D)%Q with (2 * Zq * D - 2 * (Fv * D) + D)%Q by ring.
        rewrite V. lra. }
      split; nra. }
    destruct (Z.compare_spec (2 * r) d) as [C|C|C].
    + destruct (Z.even q); apply K; nia.
    + apply K; nia.
    + apply K; nia.
Qed.

(** [round(x)] of a finite double: an integer within one half of it. *)
Lemma float_round_spec (x : float) :
  ffin x = true ->
  exists z : Z, float_round x = Ok z /\ (- (1 # 2) <= inject_Z z - fval x <= 1 # 2)%Q.
Proof.
  unfold ffin, fval, float_round. intros F.
  destruct (Prim2SF x) as [s|s| |s m e]; try discriminate F.
  - exists 0. split; [reflexivity|]. cbn [sval]. change (inject_Z 0) with 0%Q. lra.
  - eexists. split; [reflexivity|]. cbn [sval].
    pose proof (nearest_even_spec (Zpos m) e ltac:(lia)) as N.
    destruct s; cbn [cond_Zopp Z.opp]; [|exact N].
    change (Zneg m) with (- Zpos m). rewrite F2Q_opp, inject_Z_opp. lra.
Qed.

Ltac qdiv :=
  unfold Qdiv in *;
  change (/ 1)%Q with 1%Q in *; change (/ 10)%Q with (1 # 10)%Q in *;
  change (/ 100)%Q with (1 # 100)%Q in *.

(** [round(v * f) / f] for a scale [f] of 1, 10 or 100 and [v = x + 1e-12]. *)
Lemma round_scaled (x : float) (f : Z) :
  f = 1 \/ f = 10 \/ f = 100 ->
  inQ x (- 1048576) 1048576 ->
  exists z : Z,
    float_round (fmul (fadd x (dec 1 12)) (of_int f)) = Ok z /\
    inQ (fdiv (of_int z) (of_int f)) (- 1048578) 1048578 /\
    (- ((1 # 2) / inject_Z f) - round_n_slack
     <= fval (fdiv (of_int z) (of_int f)) - fval x
     <= (1 # 2) / inject_Z f + round_n_slack)%Q.
Proof.
  intros Hf (Fx & X1 & X2).
  assert (C : inQ (dec 1 12) 0 (1 # 549755813888)) by cst.
  destruct C as (Fc & C1 & C2).
  set (c := dec 1 12) in *.
  pose proof (add_rounds x c Fx Fc) as Ra.
  destruct (rounding_error (x + c)%float _ (-31) Ra) as [Fa Ea];
    [lia | change (2 ^ (-31 + 52))%Q with 2097152%Q; lra |].
  change (2 ^ (-31))%Q with (1 # 2147483648)%Q in Ea.
  set (a := (x + c)%float) in *.
  assert (R0 : - 2 ^ 53 < f < 2 ^ 53) by (destruct Hf as [-> | [-> | ->]]; split; reflexivity).
  destruct (of_int_exact f R0) as [Ff Ef]. change (Z2float f) with (of_int f) in Ff, Ef.
  pose proof (mul_rounds a (of_int f) Fa Ff) as Ry.
  apply (rounds_to_ext _ _ (fval a * inject_Z f)) in Ry; [|rewrite Ef; reflexivity].
  assert (Bf : (1 <= inject_Z f <= 100)%Q).
  { destruct Hf as [-> | [-> | ->]]; split; apply Qle_bool_iff; reflexivity. }
  destruct (rounding_error (a * of_int f)%float _ (-25) Ry) as [Fy Ey];
    [lia | change (2 ^ (-25 + 52))%Q with 134217728%Q; split; nra |].
  change (2 ^ (-25))%Q with (1 # 33554432)%Q in Ey.
  set (y := (a * of_int f)%float) in *.
  change (fmul (fadd x c) (of_int f)) with y.
  destruct (float_round_spec y Fy) as (z & Ez & Hz).
  exists z. split; [exact Ez|].
  assert (Bz : - 2 ^ 53 < z < 2 ^ 53).
  { assert (B1 : (inject_Z (- 134217729) <= inject_Z z)%Q).
    { change (inject_Z (- 134217729)) with (- 134217729)%Q. nra. }
    assert (B2 : (inject_Z z <= inject_Z 134217729)%Q).
    { change (inject_Z 134217729) with 134217729%Q. nra. }
    rewrite <- Zle_Qle in B1, B2. split; [|apply Z.le_lt_trans with (1 := B2); reflexivity].
    apply Z.lt_le_trans with (2 := B1). reflexivity. }
  destruct (of_int_exact z Bz) as [Fz Vz]. change (Z2float z) with (of_int z) in Fz, Vz.
  assert (Nf : ~ (fval (of_int f) == 0)%Q) by (rewrite Ef; lra).
  pose proof (div_rounds (of_int z) (of_int f) Fz Ff Nf) as Rr.
  apply (rounds_to_ext _ _ (inject_Z z / inject_Z f)) in Rr; [|rewrite Vz, Ef; reflexivity].
  change (fdiv (of_int z) (of_int f)) with (of_int z / of_int f)%float.
  set (r := (of_int z / of_int f)%float) in *.
  assert (Q : forall q : Q, (q * inject_Z f == inject_Z z)%Q ->
            rounds_to (Prim2SF r) q ->
            inQ r (- 1048578) 1048578 /\
            (- ((1 # 2) / inject_Z f) - round_n_slack <= fval r - fval x
             <= (1 # 2) / inject_Z f + round_n_slack)%Q).
  { intros q Eq Rq.
    assert (Bq : (- 1048577 <= q <= 1048577)%Q).
    { destruct Hf as [-> | [-> | ->]];
        [change (inject_Z 1) with 1%Q in * | change (inject_Z 10) with 10%Q in *
        | change (inject_Z 100) with 100%Q in *]; split; lra. }
    destruct (rounding_error r q (-31) Rq) as [Fr Er];
      [lia | change (2 ^ (-31 + 52))%Q with 2097152%Q; lra |].
    change (2 ^ (-31))%Q with (1 # 2147483648)%Q in Er.
    split; [split; [exact Fr | lra]|].
    unfold round_n_slack.
    destruct Hf as [-> | [-> | ->]];
      [change (inject_Z 1) with 1%Q in * | change (inject_Z 10) with 10%Q in *
      | change (inject_Z 100) with 100%Q in *]; qdiv; split; lra. }
  apply (Q (inject_Z z / inject_Z f)%Q); [|exact Rr].
  field. lra.
Qed.

(** X2. [round_n(x, d)] on the values the script rounds (up to [2^20] in
    magnitude, at 0, 1 or 2 decimals): it raises nothing and returns a
    finite double within half a unit of the last place of [x], up to the
    [2^-24] the float operations add. *)
Theorem X2_round_n_accuracy (x : float) (d : nat) :
  (d <= 2)%nat ->
  inQ x (- 1048576) 1048576 ->
  exists r : float,
    round_n x d = Ok r /\ inQ r (- 1048578) 1048578 /\
    close (half_unit d + round_n_slack) (fval r) (fval x).
Proof.
  intros Hd Hx.
  assert (Hf : 10 ^ Z.of_nat d = 1 \/ 10 ^ Z.of_nat d = 10 \/ 10 ^ Z.of_nat d = 100).
  { destruct d as [|[|[|d]]]; [left | right; left | right; right | lia]; reflexivity. }
  destruct (round_scaled x (10 ^ Z.of_nat d) Hf Hx) as (z & Ez & Br & Er).
  exists (fdiv (of_int z) (of_int (10 ^ Z.of_nat d))).
  split; [|split; [exact Br|]].
  - unfold round_n. cbv zeta. cbn [pyround binary64]. rewrite Ez. reflexivity.
  - apply close_intro. unfold half_unit. lra.
Qed.

Lemma X2_round_n_accuracy_witness :
  inQ 77.15%float (- 1048576) 1048576 /\
  exists r : float,
    round_n 77.15%float 1 = Ok r /\ inQ r (- 1048578) 1048578 /\
    close (half_unit 1 + round_n_slack) (fval r) (fval 77.15%float).
Proof.
  assert (H : inQ 77.15%float (- 1048576) 1048576) by cst.
  split; [exact H|].
  exact (X2_round_n_accuracy 77.15%float 1 ltac:(lia) H).
Defined.

(** ** A valid run completes *)

Lemma mul_inQ_abs (x y : float) (xl xh yl yh a b lo hi : Q) :
  inQ x xl xh -> inQ y yl yh -> repr lo -> repr hi ->
  (- a <= xl)%Q -> (xh <= a)%Q -> (- b <= yl)%Q -> (yh <= b)%Q ->
  (lo <= - (a * b))%Q -> (a * b <= hi)%Q -> inQ (x * y) lo hi.
Proof.
  intros (Fx & X1 & X2) (Fy & Y1 & Y2) Rl Rh A1 A2 B1 B2 Hl Hh.
  apply mul_interval; try assumption. split; nra.
Qed.

Lemma div_inQ_abs (x y : float) (xl xh a lb hb lo hi : Q) :
  inQ x xl xh -> inQ y lb hb -> repr lo -> repr hi ->
  (- a <= xl)%Q -> (xh <= a)%Q -> (0 < lb)%Q ->
  (a <= hi * lb)%Q -> (lo * lb <= - a)%Q -> inQ (x / y) lo hi.
Proof.
  intros (Fx & X1 & X2) (Fy & Y1 & Y2) Rl Rh A1 A2 P Hh Hl.
  apply div_interval; try assumption; [intros E; rewrite E in Y1; lra|].
  assert (Py : (0 < fval y)%Q) by lra.
  assert (Pa : (0 <= a)%Q) by lra.
  assert (Ph : (0 <= hi)%Q) by nra.
  assert (Pl : (lo <= 0)%Q) by nra.
  split.
  - apply Qle_shift_div_l; [exact Py | nra].
  - apply Qle_shift_div_r; [exact Py | nra].
Qed.

(** A part of a positive whole, divided by the whole. *)
Lemma div_part_inQ (x y : float) :
  ffin x = true -> ffin y = true ->
  (0 <= fval x <= fval y)%Q -> (0 < fval y)%Q -> inQ (x / y) 0 1.
Proof.
  intros Fx Fy [X1 X2] Py.
  apply div_interval; try assumption; [rz | rz | intros E; rewrite E in Py; lra |].
  split.
  - apply Qle_shift_div_l; [exact Py | lra].
  - apply Qle_shift_div_r; [exact Py | lra].
Qed.

Lemma round_n_ok (x : float) (d : nat) (lo hi : Q) :
  (d <= 2)%nat -> inQ x lo hi -> (- 1048576 <= lo)%Q -> (hi <= 1048576)%Q ->
  exists r : float, round_n x d = Ok r /\ inQ r (lo - 1) (hi + 1).
Proof.
  intros Hd (Fx & X1 & X2) Hl Hh.
  assert (Hx : inQ x (- 1048576) 1048576) by (split; [exact Fx | lra]).
  assert (Hf : 10 ^ Z.of_nat d = 1 \/ 10 ^ Z.of_nat d = 10 \/ 10 ^ Z.of_nat d = 100).
  { destruct d as [|[|[|d]]]; [left | right; left | right; right | lia]; reflexivity. }
  destruct (round_scaled x (10 ^ Z.of_nat d) Hf Hx) as (z & Ez & (Fr & _) & Er).
  exists (fdiv (of_int z) (of_int (10 ^ Z.of_nat d))).
  split; [unfold round_n; cbv zeta; cbn [pyround binary64]; rewrite Ez; reflexivity|].
  split; [exact Fr|]. unfold round_n_slack in Er.
  destruct Hf as [E | [E | E]]; rewrite E in *;
    [change (inject_Z 1) with 1%Q in Er | change (inject_Z 10) with 10%Q in Er
    | change (inject_Z 100) with 100%Q in Er]; qdiv; split; lra.
Qed.

Section Completion.
Variable w : Widgets float.
Hypothesis V : valid w = true.
Variable m : float.
Hypothesis Hm : getitem ACTIVITY (activity_label w) = Ok m.

Lemma kcal_fat_below_target : (fval (kcal_fat w m) <= fval (target_cal w m))%Q.
Proof.
  destruct (target_bounds w V m Hm) as (Ft & T1 & T2).
  assert (C : inQ (fdiv (of_int (calc_fat_percent (effective_goal w))) (of_int 100)) 0 1).
  { apply (div_inQ_const _ _ 25 35 100); [| cst | rz | rz | lra | lra | lra].
    pose proof (effective_fat_percent_cases w) as Hc. apply (of_int_inQ _ 25 35); lia. }
  destruct C as (Fc & C1 & C2).
  assert (I : inQ (kcal_fat w m) 0 (fval (target_cal w m))).
  { unfold kcal_fat. apply mul_interval; try assumption; [rz | apply repr_fval; exact Ft|].
    split; nra. }
  apply I.
Qed.

Lemma kcal_carb_below_target : (fval (kcal_carb w m) <= fval (target_cal w m))%Q.
Proof.
  destruct (target_bounds w V m Hm) as (Ft & T1 & T2).
  destruct (protein_fat_bounds w V m Hm) as (Fs & S1 & S2).
  assert (I : inQ (fsub (target_cal w m) (fadd (kcal_protein w) (kcal_fat w m)))
                  (- 30600) (fval (target_cal w m))).
  { apply sub_interval; try assumption; [rz | apply repr_fval; exact Ft | lra]. }
  unfold kcal_carb, pymax.
  destruct (flt _ _); [change (fval (of_int 0)) with 0%Q; lra | apply I].
Qed.

Lemma percent_bounds (k : float) (hi : Q) :
  inQ k 0 hi -> (hi <= 9600)%Q ->
  exists p : float, percent_of w m k = Ok p /\ inQ p 0 960000.
Proof.
  intros K Hh. rewrite (percent_of_value w V m Hm).
  eexists. split; [reflexivity|].
  apply (mul_inQ _ _ 0 9600 100 100); [| cst | rz | rz | lra | lra | lra | lra].
  apply (div_inQ _ _ 0 9600 1 21000);
    [apply (inQ_weaken _ _ _ _ _ K); lra | apply (target_bounds w V m Hm) | rz | rz | lra..].
Qed.

Lemma percent_of_part (k : float) :
  ffin k = true -> (0 <= fval k <= fval (target_cal w m))%Q ->
  exists p : float, percent_of w m k = Ok p /\ inQ p 0 100.
Proof.
  intros Fk K. rewrite (percent_of_value w V m Hm).
  destruct (target_bounds w V m Hm) as (Ft & T1 & T2).
  eexists. split; [reflexivity|].
  apply (mul_inQ _ _ 0 1 100 100); [| cst | rz | rz | lra | lra | lra | lra].
  apply div_part_inQ; try assumption. lra.
Qed.

Lemma delta_pct_bounds :
  exists d : float, delta_pct w m = Ok d /\ inQ d (- 21000) 21000.
Proof.
  destruct (tdee_bounds w V m Hm) as (Fd & D1 & D2).
  destruct (target_bounds w V m Hm) as (Ft & T1 & T2).
  assert (Z : ffin (of_int 0) = true) by reflexivity.
  assert (P : flt (of_int 0) (tdee w m) = true).
  { cbn [flt binary64]. apply (ltb_fval _ _ Z Fd). change (fval (of_int 0)) with 0%Q. lra. }
  unfold delta_pct, pydiv. rewrite P, (positive_nonzero _ P). cbn [bind].
  eexists. split; [reflexivity|].
  apply (mul_inQ_abs _ _ (- 210) 210 100 100 210 100); [| cst | rz | rz | lra..].
  apply (div_inQ_abs _ _ (- 21000) 21000 21000 100 14000);
    [| split; [exact Fd | lra] | rz | rz | lra..].
  apply sub_interval; try assumption; [rz | rz | lra].
Qed.

Lemma per_meal_bounds (g : float) (hi : Q) :
  inQ g 0 hi -> (hi <= 5250)%Q ->
  exists r : float, per_meal_of w g = Ok (Float r) /\ inQ r (- 1) 5251.
Proof.
  intros G Hh.
  destruct (valid_bounds w V) as (_ & _ & _ & _ & _ & _ & Hmeals).
  unfold per_meal_of, pydiv_int.
  destruct (Z.eqb_spec (meals w) 0) as [E|N]; [lia|]. cbn [negb bind].
  assert (Q : inQ (fdiv g (of_int (meals w))) 0 5250).
  { apply (div_inQ _ _ 0 5250 1 8);
      [apply (inQ_weaken _ _ _ _ _ G); lra | apply (of_int_inQ _ 1 8); lia | rz | rz | lra..]. }
  destruct (round_n_ok _ 1 _ _ ltac:(lia) Q ltac:(lra) ltac:(lra)) as (r & E & R).
  rewrite E. cbn [bind]. exists r. split; [reflexivity|].
  apply (inQ_weaken _ _ _ _ _ R); lra.
Qed.

Lemma rounded_macro_total (g k : float) (percent : result float) (p : float)
      (gh kh ph : Q) :
  percent = Ok p ->
  inQ g 0 gh -> inQ k 0 kh -> inQ p 0 ph ->
  (gh <= 1048576)%Q -> (kh <= 1048576)%Q -> (ph <= 1048576)%Q ->
  exists row : Macro float, rounded_macro g k percent = Ok row.
Proof.
  intros -> G K P Hg Hk Hp. unfold rounded_macro. cbn [bind].
  destruct (round_n_ok g 0 _ _ ltac:(lia) G ltac:(lra) Hg) as (a & -> & _).
  destruct (round_n_ok k 0 _ _ ltac:(lia) K ltac:(lra) Hk) as (b & -> & _).
  destruct (round_n_ok p 0 _ _ ltac:(lia) P ltac:(lra) Hp) as (c & -> & _).
  cbn [bind]. eexists. reflexivity.
Qed.

Lemma protein_row : exists row : Macro float,
  rounded_macro (grams_protein w) (kcal_protein w) (pct_protein w m) = Ok row.
Proof.
  destruct (percent_bounds (kcal_protein w) 9600 (kcal_protein_bounds w V) ltac:(lra))
    as (p & E & P).
  apply (rounded_macro_total _ _ _ p 2400 9600 960000 E);
    [apply grams_protein_bounds, V | apply kcal_protein_bounds, V | exact P | lra..].
Qed.

Lemma fat_row : exists row : Macro float,
  rounded_macro (grams_fat w m) (kcal_fat w m) (pct_fat w m) = Ok row.
Proof.
  destruct (kcal_fat_bounds w V m Hm) as (Ff & F1 & F2).
  destruct (percent_of_part (kcal_fat w m) Ff (conj F1 kcal_fat_below_target)) as (p & E & P).
  apply (rounded_macro_total _ _ _ p 2400 21000 100 E);
    [apply (grams_fat_bounds w V m Hm) | apply (kcal_fat_bounds w V m Hm) | exact P | lra..].
Qed.

Lemma carb_row : exists row : Macro float,
  rounded_macro (grams_carb w m) (kcal_carb w m) (pct_carb w m) = Ok row.
Proof.
  destruct (kcal_carb_bounds w V m Hm) as (Fc & C1 & C2).
  destruct (percent_of_part (kcal_carb w m) Fc (conj C1 kcal_carb_below_target)) as (p & E & P).
  apply (rounded_macro_total _ _ _ p 5250 21000 100 E);
    [apply (grams_carb_bounds w V m Hm) | apply (kcal_carb_bounds w V m Hm) | exact P | lra..].
Qed.

Lemma page_completes : exists s : Page.t float, page w m = Ok s.
Proof.
  unfold page.
  destruct (round_n_ok _ 0 _ _ ltac:(lia) (bmr_bounds w V) ltac:(lra) ltac:(lra)) as (r1 & -> & _).
  destruct (round_n_ok _ 0 _ _ ltac:(lia) (tdee_bounds w V m Hm) ltac:(lra) ltac:(lra))
    as (r2 & -> & _).
  destruct delta_pct_bounds as (d & -> & D).
  destruct (round_n_ok _ 0 _ _ ltac:(lia) (target_bounds w V m Hm) ltac:(lra) ltac:(lra))
    as (r3 & -> & _).
  cbn [bind].
  destruct (round_n_ok _ 1 _ _ ltac:(lia) D ltac:(lra) ltac:(lra)) as (r4 & -> & _).
  destruct (round_n_ok _ 2 _ _ ltac:(lia) (protein_rate_bounds w V) ltac:(lra) ltac:(lra))
    as (r5 & -> & _).
  destruct protein_row as (mp & ->). destruct fat_row as (mf & ->).
  destruct carb_row as (mc & ->).
  unfold per_meal_protein, per_meal_fat, per_meal_carbs.
  destruct (per_meal_bounds _ _ (grams_protein_bounds w V) ltac:(lra)) as (p1 & -> & _).
  destruct (per_meal_bounds _ _ (grams_fat_bounds w V m Hm) ltac:(lra)) as (p2 & -> & _).
  destruct (per_meal_bounds _ _ (grams_carb_bounds w V m Hm) ltac:(lra)) as (p3 & -> & _).
  cbn [bind]. eexists. reflexivity.
Qed.

Lemma export_completes : exists x : Payload.t float, export_payload w m = Ok x.
Proof.
  unfold export_payload.
  destruct (round_n_ok _ 1 _ _ ltac:(lia) (height_bounds w V) ltac:(lra) ltac:(lra))
    as (h & -> & _).
  destruct (round_n_ok _ 1 _ _ ltac:(lia) (weight_bounds w V) ltac:(lra) ltac:(lra))
    as (k & -> & _).
  destruct (round_n_ok _ 0 _ _ ltac:(lia) (bmr_bounds w V) ltac:(lra) ltac:(lra)) as (r1 & -> & _).
  destruct (round_n_ok _ 0 _ _ ltac:(lia) (tdee_bounds w V m Hm) ltac:(lra) ltac:(lra))
    as (r2 & -> & _).
  destruct (round_n_ok _ 0 _ _ ltac:(lia) (target_bounds w V m Hm) ltac:(lra) ltac:(lra))
    as (r3 & -> & _).
  destruct protein_row as (mp & ->). destruct fat_row as (mf & ->).
  destruct carb_row as (mc & ->).
  unfold per_meal_protein, per_meal_fat, per_meal_carbs.
  destruct (per_meal_bounds _ _ (grams_protein_bounds w V) ltac:(lra)) as (p1 & -> & P1).
  destruct (per_meal_bounds _ _ (grams_fat_bounds w V m Hm) ltac:(lra)) as (p2 & -> & P2).
  destruct (per_meal_bounds _ _ (grams_carb_bounds w V m Hm) ltac:(lra)) as (p3 & -> & P3).
  cbn [bind to_float].
  destruct (round_n_ok _ 1 _ _ ltac:(lia) P1 ltac:(lra) ltac:(lra)) as (x1 & -> & _).
  destruct (round_n_ok _ 1 _ _ ltac:(lia) P2 ltac:(lra) ltac:(lra)) as (x2 & -> & _).
  destruct (round_n_ok _ 1 _ _ ltac:(lia) P3 ltac:(lra) ltac:(lra)) as (x3 & -> & _).
  cbn [bind]. eexists. reflexivity.
Qed.

End Completion.

(** X17. In binary64, a run on values within the bounds of the widgets and
    with an activity of the select box raises no exception: the page and the
    export payload are computed. *)
Theorem X17_valid_run_completes (w : Widgets float) (a : Activity) :
  valid w = true ->
  activity_label w = activity_name a ->
  exists (s : Page.t float) (x : Payload.t float), script w = Ok (s, x).
Proof.
  intros V L.
  assert (Hm : getitem ACTIVITY (activity_label w) = Ok (multiplier a))
    by (rewrite L; apply activity_lookup).
  destruct (page_completes w V _ Hm) as (s & Es).
  destruct (export_completes w V _ Hm) as (x & Ex).
  exists s, x. unfold script. rewrite Hm. cbn [bind]. rewrite Es. cbn [bind].
  rewrite Ex. reflexivity.
Qed.

Lemma X17_valid_run_completes_witness :
  valid cut_run = true /\
  exists (s : Page.t float) (x : Payload.t float), script cut_run = Ok (s, x).
Proof.
  assert (V : valid cut_run = true) by (vm_compute; reflexivity).
  split; [exact V|].
  exact (X17_valid_run_completes cut_run Moderate V eq_refl).
Defined.

(** ** Presets *)

Lemma finite_leb_refl (x : float) : ffin x = true -> fle x x = true.
Proof. intros F. cbn [fle binary64]. apply (leb_fval x x F F). apply Qle_refl. Qed.

(** [max(a, b)] of finite doubles is at least each of them. *)
Lemma pymax_floor (a b : float) :
  ffin a = true -> ffin b = true ->
  fle a (pymax a b) = true /\ fle b (pymax a b) = true.
Proof.
  intros Fa Fb. unfold pymax. cbn [flt fle binary64].
  destruct (a <? b)%float eqn:E.
  - split; [|apply finite_leb_refl; exact Fb].
    apply (ltb_fval a b Fa Fb) in E. apply (leb_fval a b Fa Fb). lra.
  - split; [apply finite_leb_refl; exact Fa|].
    apply (leb_fval b a Fb Fa).
    destruct (Qlt_le_dec (fval a) (fval b)) as [Lt|Le]; [|exact Le].
    apply (ltb_fval a b Fa Fb) in Lt. congruence.
Qed.

(** X7. In binary64, for a base rate of the slider, a preset never lowers the
    protein rate: the effective rate is at least the base rate, it is the base
    rate with Custom, and at least 1.0 with Cut, 0.9 with Recomp and 0.8 with
    Lean Bulk (as the comparisons [<=] of Python). *)
Theorem X7_preset_protein_floor (w : Widgets float) (p : Preset) :
  between (dec 6 1) (base_protein_per_lb w) (dec 12 1) = true ->
  preset w = preset_label p ->
  fle (base_protein_per_lb w) (calc_protein_per_lb (effective_goal w)) = true /\
  match p with
  | Custom => calc_protein_per_lb (effective_goal w) = base_protein_per_lb w
  | Cut => fle (of_int 1) (calc_protein_per_lb (effective_goal w)) = true
  | Recomp => fle (dec 9 1) (calc_protein_per_lb (effective_goal w)) = true
  | LeanBulk => fle (dec 8 1) (calc_protein_per_lb (effective_goal w)) = true
  end.
Proof.
  intros Hb Hp.
  assert (Fb : ffin (base_protein_per_lb w) = true).
  { apply between_inQ in Hb; [apply Hb | reflexivity | reflexivity]. }
  unfold effective_goal. rewrite Hp.
  destruct p; cbn [preset_label String.eqb Ascii.eqb Bool.eqb negb prefix calc_protein_per_lb];
    [ split; [apply finite_leb_refl; exact Fb | reflexivity]
    | apply pymax_floor; [exact Fb | reflexivity] .. ].
Qed.

Lemma X7_preset_protein_floor_witness :
  fle (base_protein_per_lb cut_run) (calc_protein_per_lb (effective_goal cut_run)) = true /\
  fle (of_int 1) (calc_protein_per_lb (effective_goal cut_run)) = true.
Proof.
  exact (X7_preset_protein_floor cut_run Cut eq_refl eq_refl).
Defined.

(** X8. For every arithmetic: without override, a preset replaces the base
    calorie change (-20 with Cut, 0 with Recomp, 10 with Lean Bulk, the
    slider's value with Custom), and the target is TDEE scaled by it. *)
Theorem X8_preset_target {F : Type} {A : Arith F} (w : Widgets F) (m : F) (p : Preset) :
  preset w = preset_label p ->
  overridden w = false ->
  calc_calorie_delta_pct (effective_goal w) = preset_delta p (base_calorie_delta_pct w) /\
  target_cal w m =
    fmul (tdee w m)
         (fadd (of_int 1)
               (fdiv (of_int (preset_delta p (base_calorie_delta_pct w))) (of_int 100))).
Proof.
  intros Hp Ho.
  assert (E : calc_calorie_delta_pct (effective_goal w)
              = preset_delta p (base_calorie_delta_pct w)).
  { unfold effective_goal. rewrite Hp. destruct p; reflexivity. }
  split; [exact E|]. unfold target_cal. rewrite Ho, E. reflexivity.
Qed.

Lemma X8_preset_target_witness :
  calc_calorie_delta_pct (effective_goal cut_run) = (-20)%Z /\
  target_cal cut_run (multiplier Moderate) =
    fmul (tdee cut_run (multiplier Moderate))
         (fadd (of_int 1) (fdiv (of_int (-20)) (of_int 100))).
Proof.
  exact (X8_preset_target cut_run (multiplier Moderate) Cut eq_refl eq_refl).
Defined.

(** ** Lean mass *)

(** X12. In binary64, for values of the widgets, a supplied body fat gives a
    lean mass that is not negative, at most the weight, and at least 30% of
    the weight (up to [2^-41] kg of rounding). *)
Theorem X12_lean_mass_bounds (w : Widgets float) (b : float) :
  valid w = true ->
  body_fat w = Some b ->
  exists l : float,
    lean_mass_kg w = Some l /\
    fle (of_int 0) l = true /\ fle l (weight_kg w) = true /\
    ((3 # 10) * fval (weight_kg w) - (1 # 2199023255552) <= fval l)%Q.
Proof.
  intros V Hb.
  destruct (valid_bounds w V) as (_ & _ & B & _). rewrite Hb in B. destruct B as [B B0].
  destruct (weight_bounds w V) as (Fw & W1 & W2).
  unfold lean_mass_kg. rewrite Hb, B0. cbv zeta. eexists. split; [reflexivity|].
  assert (Z0 : inQ (of_int 0) 0 70) by cst.
  assert (Z70 : inQ (of_int 70) 0 70) by cst.
  destruct (pymin_inQ _ _ _ _ (pymax_inQ _ _ _ _ B Z0) Z70) as (Fc & C1 & C2).
  set (c := pymin (pymax b (of_int 0)) (of_int 70)) in *.
  assert (F100 : ffin (of_int 100) = true) by reflexivity.
  assert (E100 : (fval (of_int 100) == 100)%Q) by (vm_compute; reflexivity).
  assert (N100 : ~ (fval (of_int 100) == 0)%Q) by (rewrite E100; lra).
  pose proof (div_rounds c (of_int 100) Fc F100 N100) as R1.
  apply (rounds_to_ext _ _ (fval c * (1 # 100))) in R1;
    [|rewrite E100; unfold Qdiv; change (/ 100)%Q with (1 # 100)%Q; reflexivity].
  destruct (rounding_error (c / of_int 100)%float _ (-52) R1) as [F1 E1];
    [lia | change (2 ^ (-52 + 52))%Q with 1%Q; lra |].
  change (2 ^ (-52))%Q with (1 # 4503599627370496)%Q in E1.
  assert (I1 : inQ (c / of_int 100)%float 0 1).
  { apply (div_inQ_const _ _ 0 70 100); [split; [exact Fc | lra] | cst | rz | rz | lra..]. }
  change (fdiv c (of_int 100)) with (c / of_int 100)%float.
  set (bf := (c / of_int 100)%float) in *.
  destruct I1 as (_ & I1 & I2).
  assert (F1' : ffin (of_int 1) = true) by reflexivity.
  assert (E1' : (fval (of_int 1) == 1)%Q) by (vm_compute; reflexivity).
  pose proof (sub_rounds (of_int 1) bf F1' F1) as R2.
  apply (rounds_to_ext _ _ (1 - fval bf)) in R2; [|rewrite E1'; reflexivity].
  destruct (rounding_error (of_int 1 - bf)%float _ (-52) R2) as [F2 E2];
    [lia | change (2 ^ (-52 + 52))%Q with 1%Q; lra |].
  change (2 ^ (-52))%Q with (1 # 4503599627370496)%Q in E2.
  assert (I3 : inQ (of_int 1 - bf)%float 0 1).
  { apply sub_interval; try assumption; [rz | rz | rewrite E1'; lra]. }
  change (fsub (of_int 1) bf) with (of_int 1 - bf)%float.
  set (r := (of_int 1 - bf)%float) in *.
  destruct I3 as (_ & I3 & I4).
  pose proof (mul_rounds (weight_kg w) r Fw F2) as R3.
  destruct (rounding_error (weight_kg w * r)%float _ (-43) R3) as [F3 E3];
    [lia | change (2 ^ (-43 + 52))%Q with 512%Q; split; nra |].
  change (2 ^ (-43))%Q with (1 # 8796093022208)%Q in E3.
  assert (I5 : inQ (weight_kg w * r)%float 0 (fval (weight_kg w))).
  { apply mul_interval; try assumption; [rz | apply repr_fval; exact Fw | split; nra]. }
  change (fmul (weight_kg w) r) with (weight_kg w * r)%float.
  destruct I5 as (_ & I5 & I6).
  split; [|split].
  - cbn [fle binary64 of_int]. apply leb_fval; [reflexivity | exact F3 | exact I5].
  - cbn [fle binary64]. apply leb_fval; [exact F3 | exact Fw | exact I6].
  - nra.
Qed.

Lemma X12_lean_mass_bounds_witness :
  valid defaults = true /\
  exists l : float,
    lean_mass_kg defaults = Some l /\
    fle (of_int 0) l = true /\ fle l (weight_kg defaults) = true /\
    ((3 # 10) * fval (weight_kg defaults) - (1 # 2199023255552) <= fval l)%Q.
Proof.
  assert (V : valid defaults = true) by (vm_compute; reflexivity).
  split; [exact V|].
  exact (X12_lean_mass_bounds defaults 18%float V eq_refl).
Defined.

(** ** Percentages, the delta against TDEE and the per-meal values *)

(** A quotient is as close to [a] as the dividend is to [y * a], scaled by a
    lower bound of the divisor. *)
Lemma ratio_close (x y a e lb : Q) :
  (0 < lb)%Q -> (lb <= y)%Q -> (- e <= x - y * a <= e)%Q ->
  (- e <= lb * (x / y - a) <= e)%Q.
Proof.
  intros Pl Ly [H1 H2].
  assert (Py : (0 < y)%Q) by lra.
  assert (E : ((x / y - a) * y == x - y * a)%Q) by (field; lra).
  set (s := (x / y - a)%Q) in *.
  destruct (Qlt_le_dec s 0) as [N|P]; split; nra.
Qed.

Lemma fat_fraction_error (w : Widgets float) :
  ffin (fdiv (of_int (calc_fat_percent (effective_goal w))) (of_int 100)) = true /\
  (- (1 # 9007199254740992)
   <= fval (fdiv (of_int (calc_fat_percent (effective_goal w))) (of_int 100))
      - inject_Z (calc_fat_percent (effective_goal w)) * (1 # 100)
   <= 1 # 9007199254740992)%Q /\
  (25 <= inject_Z (calc_fat_percent (effective_goal w)) <= 35)%Q.
Proof.
  pose proof (effective_fat_percent_cases w) as Hc.
  set (phi := calc_fat_percent (effective_goal w)) in *.
  assert (Bp : (25 <= inject_Z phi <= 35)%Q)
    by (destruct Hc as [-> | [-> | ->]]; split; apply Qle_bool_iff; reflexivity).
  destruct (of_int_exact phi ltac:(lia)) as [Fp Ep]. change (Z2float phi) with (of_int phi) in Fp, Ep.
  assert (F100 : ffin (of_int 100) = true) by reflexivity.
  assert (E100 : (fval (of_int 100) == 100)%Q) by (vm_compute; reflexivity).
  assert (N100 : ~ (fval (of_int 100) == 0)%Q) by (rewrite E100; lra).
  pose proof (div_rounds (of_int phi) (of_int 100) Fp F100 N100) as R.
  apply (rounds_to_ext _ _ (inject_Z phi * (1 # 100))) in R;
    [|rewrite Ep, E100; unfold Qdiv; change (/ 100)%Q with (1 # 100)%Q; reflexivity].
  destruct (rounding_error (of_int phi / of_int 100)%float _ (-53) R) as [F E];
    [lia | change (2 ^ (-53 + 52))%Q with (1 # 2)%Q; lra |].
  change (2 ^ (-53))%Q with (1 # 9007199254740992)%Q in E.
  split; [exact F | split; [exact E | exact Bp]].
Qed.

(** X10. In binary64, for values of the widgets, the percentage of fat in
    the table is the applied fat percent within [2^-32]. *)
Theorem X10_fat_percentage_is_the_applied_one (w : Widgets float) (m : float) :
  valid w = true ->
  getitem ACTIVITY (activity_label w) = Ok m ->
  exists p : float,
    pct_fat w m = Ok p /\ ffin p = true /\
    close (1 # 4294967296) (fval p) (inject_Z (calc_fat_percent (effective_goal w))).
Proof.
  intros V Hm. unfold pct_fat. rewrite (percent_of_value w V m Hm).
  eexists. split; [reflexivity|].
  destruct (target_bounds w V m Hm) as (Ft & T1 & T2).
  destruct (fat_fraction_error w) as (Fc & Ec & Bp).
  unfold kcal_fat.
  set (phi := inject_Z (calc_fat_percent (effective_goal w))) in *.
  set (c := fdiv (of_int (calc_fat_percent (effective_goal w))) (of_int 100)) in *.
  set (t := target_cal w m) in *.
  pose proof (mul_rounds t c Ft Fc) as Rk.
  destruct (rounding_error (t * c)%float _ (-39) Rk) as [Fk Ek];
    [lia | change (2 ^ (-39 + 52))%Q with 8192%Q; split; nra |].
  change (2 ^ (-39))%Q with (1 # 549755813888)%Q in Ek.
  change (fmul t c) with (t * c)%float. set (k := (t * c)%float) in *.
  assert (Nt : ~ (fval t == 0)%Q) by (intros E; rewrite E in T1; lra).
  pose proof (ratio_close (fval k) (fval t) (fval c) (1 # 549755813888) 1
                ltac:(lra) T1 Ek) as U.
  pose proof (div_rounds k t Fk Ft Nt) as Rq.
  destruct (rounding_error (k / t)%float _ (-53) Rq) as [Fq Eq];
    [lia | change (2 ^ (-53 + 52))%Q with (1 # 2)%Q; lra |].
  change (2 ^ (-53))%Q with (1 # 9007199254740992)%Q in Eq.
  assert (F100 : ffin (of_int 100) = true) by reflexivity.
  assert (E100 : (fval (of_int 100) == 100)%Q) by (vm_compute; reflexivity).
  pose proof (mul_rounds (k / t)%float (of_int 100) Fq F100) as Rp.
  apply (rounds_to_ext _ _ (fval (k / t)%float * 100)) in Rp; [|rewrite E100; reflexivity].
  destruct (rounding_error ((k / t) * of_int 100)%float _ (-46) Rp) as [Fp Ep];
    [lia | change (2 ^ (-46 + 52))%Q with 64%Q; lra |].
  change (2 ^ (-46))%Q with (1 # 70368744177664)%Q in Ep.
  change (fmul (fdiv k t) (of_int 100)) with ((k / t) * of_int 100)%float.
  split; [exact Fp|]. apply close_intro.
  generalize dependent (fval ((k / t) * of_int 100)%float).
  generalize dependent (fval (k / t)%float).
  generalize dependent (fval k / fval t)%Q. intros; lra.
Qed.

Lemma X10_fat_percentage_is_the_applied_one_witness :
  valid cut_run = true /\
  exists p : float,
    pct_fat cut_run (multiplier Moderate) = Ok p /\ ffin p = true /\
    close (1 # 4294967296) (fval p) (inject_Z (calc_fat_percent (effective_goal cut_run))).
Proof.
  assert (V : valid cut_run = true) by (vm_compute; reflexivity).
  split; [exact V|].
  exact (X10_fat_percentage_is_the_applied_one cut_run (multiplier Moderate) V eq_refl).
Defined.

(** X9. In binary64, for values of the widgets and without override, the
    delta against TDEE shown beside the target is the applied calorie change
    within [2^-36] percent points. *)
Theorem X9_delta_is_the_calorie_change (w : Widgets float) (m : float) :
  valid w = true ->
  getitem ACTIVITY (activity_label w) = Ok m ->
  overridden w = false ->
  exists d : float,
    delta_pct w m = Ok d /\ ffin d = true /\
    close (1 # 68719476736) (fval d) (inject_Z (calc_calorie_delta_pct (effective_goal w))).
Proof.
  intros V Hm Ho.
  destruct (valid_bounds w V) as (_ & _ & _ & Hd & _).
  destruct (tdee_bounds w V m Hm) as (FD & D1 & D2).
  assert (Z : ffin (of_int 0) = true) by reflexivity.
  assert (P : flt (of_int 0) (tdee w m) = true).
  { cbn [flt binary64]. apply (ltb_fval _ _ Z FD). change (fval (of_int 0)) with 0%Q. lra. }
  unfold delta_pct, pydiv. rewrite P, (positive_nonzero _ P). cbn [bind].
  eexists. split; [reflexivity|].
  unfold target_cal. rewrite Ho.
  pose proof (effective_delta_cases w) as Hc. cbn [In] in Hc.
  set (delta := calc_calorie_delta_pct (effective_goal w)) in *.
  assert (Bd : -30 <= delta <= 20) by lia.
  assert (Bq : (-30 <= inject_Z delta <= 20)%Q).
  { change (-30)%Q with (inject_Z (-30)). change 20%Q with (inject_Z 20).
    rewrite <- !Zle_Qle. exact Bd. }
  destruct (of_int_exact delta ltac:(lia)) as [Fd Ed].
  change (Z2float delta) with (of_int delta) in Fd, Ed.
  assert (F100 : ffin (of_int 100) = true) by reflexivity.
  assert (E100 : (fval (of_int 100) == 100)%Q) by (vm_compute; reflexivity).
  assert (N100 : ~ (fval (of_int 100) == 0)%Q) by (rewrite E100; lra).
  assert (F1 : ffin (of_int 1) = true) by reflexivity.
  assert (E1 : (fval (of_int 1) == 1)%Q) by (vm_compute; reflexivity).
  (* delta / 100 *)
  pose proof (div_rounds (of_int delta) (of_int 100) Fd F100 N100) as Ra.
  apply (rounds_to_ext _ _ (inject_Z delta * (1 # 100))) in Ra;
    [|rewrite Ed, E100; unfold Qdiv; change (/ 100)%Q with (1 # 100)%Q; reflexivity].
  destruct (rounding_error (of_int delta / of_int 100)%float _ (-53) Ra) as [Fa Ea];
    [lia | change (2 ^ (-53 + 52))%Q with (1 # 2)%Q; lra |].
  change (2 ^ (-53))%Q with (1 # 9007199254740992)%Q in Ea.
  change (fdiv (of_int delta) (of_int 100)) with (of_int delta / of_int 100)%float.
  set (a := (of_int delta / of_int 100)%float) in *.
  (* 1 + delta / 100 *)
  pose proof (add_rounds (of_int 1) a F1 Fa) as Rb.
  apply (rounds_to_ext _ _ (1 + fval a)) in Rb; [|rewrite E1; reflexivity].
  destruct (rounding_error (of_int 1 + a)%float _ (-51) Rb) as [Fb Eb];
    [lia | change (2 ^ (-51 + 52))%Q with 2%Q; lra |].
  change (2 ^ (-51))%Q with (1 # 2251799813685248)%Q in Eb.
  change (fadd (of_int 1) a) with (of_int 1 + a)%float.
  set (b := (of_int 1 + a)%float) in *.
  (* the target *)
  set (D := tdee w m) in *.
  pose proof (mul_rounds D b FD Fb) as Rt.
  destruct (rounding_error (D * b)%float _ (-37) Rt) as [Ft Et];
    [lia | change (2 ^ (-37 + 52))%Q with 32768%Q; split; nra |].
  change (2 ^ (-37))%Q with (1 # 137438953472)%Q in Et.
  change (fmul D b) with (D * b)%float. set (t := (D * b)%float) in *.
  (* target - tdee *)
  pose proof (sub_rounds t D Ft FD) as Rs.
  destruct (rounding_error (t - D)%float _ (-39) Rs) as [Fs Es];
    [lia | change (2 ^ (-39 + 52))%Q with 8192%Q; split; nra |].
  change (2 ^ (-39))%Q with (1 # 549755813888)%Q in Es.
  change (fsub t D) with (t - D)%float. set (s := (t - D)%float) in *.
  (* (target - tdee) / tdee *)
  assert (ND : ~ (fval D == 0)%Q) by (intros E; rewrite E in D1; lra).
  assert (Hs : (- (5 # 549755813888) <= fval s - fval D * (fval b - 1)
                <= 5 # 549755813888)%Q) by (split; nra).
  pose proof (ratio_close (fval s) (fval D) (fval b - 1) (5 # 549755813888) 100
                ltac:(lra) D1 Hs) as U.
  pose proof (div_rounds s D Fs FD ND) as Rq.
  destruct (rounding_error (s / D)%float _ (-53) Rq) as [Fq Eq];
    [lia | change (2 ^ (-53 + 52))%Q with (1 # 2)%Q; lra |].
  change (2 ^ (-53))%Q with (1 # 9007199254740992)%Q in Eq.
  (* times 100 *)
  pose proof (mul_rounds (s / D)%float (of_int 100) Fq F100) as Rp.
  apply (rounds_to_ext _ _ (fval (s / D)%float * 100)) in Rp; [|rewrite E100; reflexivity].
  destruct (rounding_error ((s / D) * of_int 100)%float _ (-47) Rp) as [Fp Ep];
    [lia | change (2 ^ (-47 + 52))%Q with 32%Q; lra |].
  change (2 ^ (-47))%Q with (1 # 140737488355328)%Q in Ep.
  change (fmul (fdiv s D) (of_int 100)) with ((s / D) * of_int 100)%float.
  split; [exact Fp|]. apply close_intro.
  generalize dependent (fval ((s / D) * of_int 100)%float).
  generalize dependent (fval (s / D)%float).
  generalize dependent (fval s / fval D)%Q. intros; lra.
Qed.

Lemma X9_delta_is_the_calorie_change_witness :
  valid cut_run = true /\
  exists d : float,
    delta_pct cut_run (multiplier Moderate) = Ok d /\ ffin d = true /\
    close (1 # 68719476736) (fval d)
          (inject_Z (calc_calorie_delta_pct (effective_goal cut_run))).
Proof.
  assert (V : valid cut_run = true) by (vm_compute; reflexivity).
  split; [exact V|].
  exact (X9_delta_is_the_calorie_change cut_run (multiplier Moderate) V eq_refl eq_refl).
Defined.




(** ** Units *)

(** X1. In binary64, with imperial units and the protein basis on total
    weight, the basis in lb is the weight entered, within [2^-40] lb: the
    conversion to kg and back loses no more. *)
Theorem X1_unit_round_trips (w : Widgets float) :
  valid w = true ->
  imperial w = true ->
  use_lean_mass w = false ->
  ffin (basis_lb w) = true /\
  close (1 # 1099511627776) (fval (basis_lb w)) (fval (weight_lb w)).
Proof.
  intros V Hi Hu.
  destruct (valid_bounds w V) as (_ & I & _). rewrite Hi in I. destruct I as (_ & _ & (Fx & X1 & X2)).
  unfold basis_lb. rewrite Hu. unfold weight_kg. rewrite Hi. unfold kg_to_lb, lb_to_kg.
  assert (C : inQ (dec 45359237 8) (9 # 20) (1 # 2)) by cst.
  destruct C as (Fc & C1 & C2).
  set (c := dec 45359237 8) in *. set (x := weight_lb w) in *.
  pose proof (mul_rounds x c Fx Fc) as Ry.
  destruct (rounding_error (x * c)%float _ (-43) Ry) as [Fy Ey];
    [lia | change (2 ^ (-43 + 52))%Q with 512%Q; split; nra |].
  change (2 ^ (-43))%Q with (1 # 8796093022208)%Q in Ey.
  change (fmul x c) with (x * c)%float. set (y := (x * c)%float) in *.
  assert (Nc : ~ (fval c == 0)%Q) by (intros E; rewrite E in C1; lra).
  assert (Hy : (- (1 # 8796093022208) <= fval y - fval c * fval x <= 1 # 8796093022208)%Q)
    by (split; nra).
  pose proof (ratio_close (fval y) (fval c) (fval x) (1 # 8796093022208) (9 # 20)
                ltac:(lra) C1 Hy) as U.
  pose proof (div_rounds y c Fy Fc Nc) as Rz.
  destruct (rounding_error (y / c)%float _ (-42) Rz) as [Fz Ez];
    [lia | change (2 ^ (-42 + 52))%Q with 1024%Q; lra |].
  change (2 ^ (-42))%Q with (1 # 4398046511104)%Q in Ez.
  change (fdiv y c) with (y / c)%float.
  split; [exact Fz|]. apply close_intro.
  generalize dependent (fval (y / c)%float).
  generalize dependent (fval y / fval c)%Q. intros; lra.
Qed.

Lemma X1_unit_round_trips_witness :
  valid (with_lean_mass_off defaults) = true /\
  close (1 # 1099511627776) (fval (basis_lb (with_lean_mass_off defaults)))
        (fval (weight_lb (with_lean_mass_off defaults))).
Proof.
  assert (V : valid (with_lean_mass_off defaults) = true) by (vm_compute; reflexivity).
  split; [exact V|].
  exact (proj2 (X1_unit_round_trips (with_lean_mass_off defaults) V eq_refl eq_refl)).
Defined.

End Binary64.

(** * The policies of the script *)

(** ** Division by zero *)

Section Division.
Context {F : Type} {A : Arith F} {L : Lawful F}.
Variable w : Widgets F.

Lemma percent_of_total (m k : F) : raised (percent_of w m k) = None.
Proof.
  unfold percent_of, pydiv.
  destruct (flt (of_int 0) (target_cal w m)) eqn:E; [|reflexivity].
  rewrite (positive_nonzero _ E). reflexivity.
Qed.

Lemma delta_pct_total (m : F) : raised (delta_pct w m) = None.
Proof.
  unfold delta_pct, pydiv.
  destruct (flt (of_int 0) (tdee w m)) eqn:E; [|reflexivity].
  rewrite (positive_nonzero _ E). reflexivity.
Qed.

Lemma percent_of_nonpositive (m k : F) :
  fle (target_cal w m) (of_int 0) = true -> percent_of w m k = Ok (of_int 0).
Proof.
  intros H. unfold percent_of. rewrite (nonpositive_not_positive _ H). reflexivity.
Qed.

Lemma per_meal_of_no_meals (grams : F) :
  meals w = 0%Z -> per_meal_of w grams = Ok (Int 0).
Proof.
  intros H. unfold per_meal_of. rewrite H. reflexivity.
Qed.

Lemma getitem_no_zero_division (d : list (string * F)) (k : string) :
  is_zero_division (getitem d k) = false.
Proof.
  induction d as [|[k' v] d IH]; simpl; [reflexivity|].
  destruct (String.eqb k' k); [reflexivity | exact IH].
Qed.

Lemma round_n_no_zero_division (x : F) (d : nat) :
  is_zero_division (round_n x d) = false.
Proof.
  unfold round_n. apply bind_no_zero_division; [apply pyround_no_zero_division | reflexivity].
Qed.

Lemma per_meal_of_no_zero_division (grams : F) :
  is_zero_division (per_meal_of w grams) = false.
Proof.
  unfold per_meal_of, pydiv_int.
  destruct (meals w =? 0)%Z; simpl; [reflexivity|].
  apply bind_no_zero_division; [apply round_n_no_zero_division | reflexivity].
Qed.

Lemma rounded_macro_no_zero_division (grams kcals : F) (percent : result F) :
  is_zero_division percent = false ->
  is_zero_division (rounded_macro grams kcals percent) = false.
Proof.
  intros H. unfold rounded_macro.
  repeat (apply bind_no_zero_division;
          [first [exact H | apply round_n_no_zero_division] | intros ?]).
  reflexivity.
Qed.

Ltac no_zero_division :=
  repeat (apply bind_no_zero_division;
          [ first [ apply round_n_no_zero_division
                  | apply per_meal_of_no_zero_division
                  | apply rounded_macro_no_zero_division; apply raised_none, percent_of_total
                  | apply raised_none, delta_pct_total
                  | apply getitem_no_zero_division ]
          | intros ? ]);
  try reflexivity.

Lemma page_no_zero_division (m : F) : is_zero_division (page w m) = false.
Proof. unfold page. no_zero_division. Qed.

Lemma export_payload_no_zero_division (m : F) :
  is_zero_division (export_payload w m) = false.
Proof. unfold export_payload. no_zero_division. Qed.

Lemma script_no_zero_division : is_zero_division (script w) = false.
Proof.
  unfold script.
  apply bind_no_zero_division; [apply getitem_no_zero_division | intros m].
  apply bind_no_zero_division; [apply page_no_zero_division | intros s].
  apply bind_no_zero_division; [apply export_payload_no_zero_division | intros x].
  reflexivity.
Qed.

End Division.

(** A property of the integers from [lo] to [lo + n - 1], checked one by one. *)
Lemma range_forallb (P : Z -> bool) (lo : Z) (n : nat) :
  forallb P (map (fun i => (lo + Z.of_nat i)%Z) (seq 0 n)) = true ->
  forall d : Z, (lo <= d < lo + Z.of_nat n)%Z -> P d = true.
Proof.
  intros H d Hd. rewrite forallb_forall in H. apply H.
  apply in_map_iff. exists (Z.to_nat (d - lo)). split; [lia|].
  apply in_seq. lia.
Qed.

Lemma binary64_zero_target (z : float) (d : Z) :
  feq z (of_int 0) = true -> (-30 <= d <= 20)%Z -> zero_target z d = true.
Proof.
  intros Hz Hd.
  destruct (float_zero_cases z Hz) as [-> | ->].
  - apply (range_forallb (zero_target 0%float) (-30) 51); [vm_compute; reflexivity | lia].
  - apply (range_forallb (zero_target (-0)%float) (-30) 51); [vm_compute; reflexivity | lia].
Qed.

Lemma binary64_target_of_zero_tdee (w : Widgets float) (m : float) :
  feq (tdee w m) (of_int 0) = true ->
  overridden w = false ->
  (-30 <= base_calorie_delta_pct w <= 20)%Z ->
  feq (target_cal w m) (of_int 0) = true.
Proof.
  intros Hz Ho Hd. unfold target_cal. rewrite Ho.
  apply (binary64_zero_target _ _ Hz).
  pose proof (effective_delta_cases w) as Hc. cbn [In] in Hc. lia.
Qed.

(** C7. No run raises ZeroDivisionError, and the percentages and the delta
    against TDEE raise nothing at all; a TDEE of 0 gives, without override and
    with the calorie change within the slider's range, a target of 0; a target
    that is not positive gives 0 for each percentage; and no meals give 0 for
    each per-meal value. *)
Theorem C7_division_by_zero_policy :
  forall w : Widgets float,
    is_zero_division (script w) = false /\
    forall m : float,
      (raised (pct_protein w m) = None /\ raised (pct_fat w m) = None /\
       raised (pct_carb w m) = None /\ raised (delta_pct w m) = None) /\
      (feq (tdee w m) (of_int 0) = true ->
       overridden w = false ->
       (-30 <= base_calorie_delta_pct w <= 20)%Z ->
       feq (target_cal w m) (of_int 0) = true) /\
      (fle (target_cal w m) (of_int 0) = true ->
       pct_protein w m = Ok 0%float /\ pct_fat w m = Ok 0%float /\
       pct_carb w m = Ok 0%float) /\
      (meals w = 0%Z ->
       per_meal_protein w = Ok (Int 0) /\ per_meal_fat w m = Ok (Int 0) /\
       per_meal_carbs w m = Ok (Int 0)).
Proof.
  intros w. split; [apply script_no_zero_division | intros m].
  split; [|split; [|split]].
  - unfold pct_protein, pct_fat, pct_carb.
    repeat split; first [apply percent_of_total | apply delta_pct_total].
  - apply binary64_target_of_zero_tdee.
  - intros H. unfold pct_protein, pct_fat, pct_carb.
    rewrite !percent_of_nonpositive by exact H. repeat split; reflexivity.
  - intros H. repeat split; apply per_meal_of_no_meals; exact H.
Qed.

Lemma C7_division_by_zero_policy_witness :
  is_zero_division (script degenerate_run) = false /\
  feq (tdee degenerate_run (multiplier Moderate)) (of_int 0) = true /\
  feq (target_cal degenerate_run (multiplier Moderate)) (of_int 0) = true /\
  pct_protein degenerate_run (multiplier Moderate) = Ok 0%float /\
  per_meal_protein degenerate_run = Ok (Int 0).
Proof.
  destruct (C7_division_by_zero_policy degenerate_run) as [H0 H].
  destruct (H (multiplier Moderate)) as (_ & H1 & H2 & H3).
  split; [exact H0 | split; [reflexivity | split]].
  - apply H1; [reflexivity | reflexivity | cbn; lia].
  - split; [apply H2; reflexivity | apply H3; reflexivity].
Defined.

(** ** The base fat slider *)

Lemma base_fat_unused {F : Type} {A : Arith F} (w : Widgets F) (f1 f2 : Z) :
  effective_goal (with_base_fat w f1) = effective_goal (with_base_fat w f2) /\
  script (with_base_fat w f1) = script (with_base_fat w f2) /\
  forall m : F, values (with_base_fat w f1) m = values (with_base_fat w f2) m.
Proof. repeat split. Qed.

(** C10. Two runs that differ only in the base fat percent (both within
    20..40) give the same page, the same export payload and the same computed
    values: the style overwrites the fat percent, and the effective fat
    percent is 25, 30 or 35. *)
Theorem C10_base_fat_noninterference :
  forall (F : Type) (A : Arith F) (w : Widgets F) (f1 f2 : Z),
    (20 <= f1 <= 40)%Z ->
    (20 <= f2 <= 40)%Z ->
    script (with_base_fat w f1) = script (with_base_fat w f2) /\
    (forall m : F, values (with_base_fat w f1) m = values (with_base_fat w f2) m) /\
    In (calc_fat_percent (effective_goal (with_base_fat w f1))) [25%Z; 30%Z; 35%Z].
Proof.
  intros F A w f1 f2 _ _.
  split; [apply base_fat_unused | split; [apply base_fat_unused | ]].
  destruct (effective_fat_percent_cases (with_base_fat w f1)) as [-> | [-> | ->]];
    cbn [In]; auto.
Qed.

Lemma C10_base_fat_noninterference_witness :
  (20 <= 20 <= 40)%Z /\ (20 <= 40 <= 40)%Z /\
  script (with_base_fat defaults 20) = script (with_base_fat defaults 40).
Proof.
  split; [lia | split; [lia | ]].
  apply (C10_base_fat_noninterference float binary64 defaults 20 40); lia.
Defined.

(** ** Rounding of the export *)

Ltac bind_inv H :=
  repeat (let a := fresh "a" in let E := fresh "E" in
          apply bind_ok in H; destruct H as (a & E & H)).

Section Rounding.
Context {F : Type} {A : Arith F}.


Lemma script_ok (w : Widgets F) (s : Page.t F) (x : Payload.t F) :
  script w = Ok (s, x) ->
  exists m : F,
    getitem ACTIVITY (activity_label w) = Ok m /\ page w m = Ok s /\
    export_payload w m = Ok x.
Proof.
  unfold script. intros H. bind_inv H. injection H as <- <-. eauto.
Qed.

End Rounding.




(** * Further properties of the script *)

(** ** Presets and styles *)

(** X6. The effective fat percent is the style's value (30 for Balanced, 35
    for Low-carb, 25 otherwise) whatever the preset and the base slider: the
    fat rules of the presets never change it. *)
Theorem X6_fat_percent_is_the_style {F : Type} {A : Arith F} (w : Widgets F) :
  calc_fat_percent (effective_goal w) =
    if prefix "Balanced" (style w) then 30%Z
    else if prefix "Low-carb" (style w) then 35%Z else 25%Z.
Proof.
  unfold effective_goal.
  destruct (prefix "Balanced" (style w)), (prefix "Low-carb" (style w)),
    (negb (String.eqb (preset w) "Custom")), (prefix "Cut" (preset w)),
    (prefix "Recomp" (preset w)), (prefix "Lean Bulk" (preset w));
    reflexivity.
Qed.

(** ** The page and the payload *)

Section Agreement.
Context {F : Type} {A : Arith F}.

Lemma ok_inj {B : Type} (r : result B) (a b : B) : r = Ok a -> r = Ok b -> a = b.
Proof. congruence. Qed.

(** X13. In a run that completes, the payload holds the numbers the page
    shows: BMR, TDEE, target, the three rows of the table, the calorie change
    and the fat percent. *)
Theorem X13_page_and_payload_agree (w : Widgets F) (s : Page.t F) (x : Payload.t F) :
  script w = Ok (s, x) ->
  Page.bmr s = Payload.bmr (Payload.the_results x) /\
  Page.tdee s = Payload.tdee (Payload.the_results x) /\
  Page.target s = Payload.targetCalories (Payload.the_results x) /\
  Page.protein s = Payload.protein (Payload.the_results x) /\
  Page.fat s = Payload.fat (Payload.the_results x) /\
  Page.carbs s = Payload.carbs (Payload.the_results x) /\
  Page.calorie_change s = Payload.calorieDeltaPct_applied (Payload.the_inputs x) /\
  Page.fat_percent s = Payload.fatPercent_applied (Payload.the_inputs x).
Proof.
  intros H. apply script_ok in H. destruct H as (m & _ & Hs & Hx).
  unfold export_payload in Hx. bind_inv Hx. injection Hx as <-.
  unfold page in Hs. bind_inv Hs. injection Hs as <-.
  cbn [Payload.bmr Payload.tdee Payload.targetCalories Payload.protein Payload.fat
       Payload.carbs Payload.calorieDeltaPct_applied Payload.fatPercent_applied
       Payload.the_inputs Payload.the_results Page.bmr Page.tdee Page.target
       Page.protein Page.fat Page.carbs Page.calorie_change Page.fat_percent].
  repeat split; eapply ok_inj; eassumption.
Qed.

End Agreement.

(** ** The properties at concrete runs *)

Lemma X13_page_and_payload_agree_witness :
  exists (s : Page.t float) (x : Payload.t float),
    script half_cm_run = Ok (s, x) /\
    Page.bmr s = Payload.bmr (Payload.the_results x).
Proof.
  assert (E : exists r, script half_cm_run = Ok r)
    by (eexists; vm_compute; reflexivity).
  destruct E as [[s x] E]. exists s, x. split; [exact E | ].
  exact (proj1 (X13_page_and_payload_agree half_cm_run s x E)).
Defined.
